(** * Educational video player: URL classification, thumbnails, player
      state and REST client

    A shallow embedding of the logic of the video player front end:
    - [utils/video-utils]: the regular-expression helpers
      [extractYouTubeVideoId], [isYouTubeUrl], [isVimeoUrl],
      [extractVimeoVideoId], [getVideoPlatform];
    - [lib/video-utils]: [parseVideoUrl], [generateVideoThumbnail],
      [getVideoThumbnail] and the thumbnail effect of [VideoThumbnail];
    - [hooks/useVideoPlayer] and [components/VimeoPlayer]: the player state,
      its handlers and the controls-hide timer;
    - [lib/api-client] and [lib/error-handler]: [request],
      [getVideosPaginated], [handleNetworkError].

    A JavaScript string is a [string], one [ascii] per UTF-16 code unit
    (code units above 255 are outside the model).  Numbers that the code
    treats as counts are [Z]; slider fractions and times are [Q]. *)

From Stdlib Require Import Bool List Arith ZArith QArith Qminmax Lia.
From Stdlib Require Import Ascii String.
From Stdlib Require Import DecimalString.
Import ListNotations.

Close Scope Q_scope.
Local Open Scope string_scope.
Local Open Scope bool_scope.

(** ** JavaScript string primitives *)

Module JsString.

(** [s.startsWith(p)], returning what follows the prefix. *)
Fixpoint strip_prefix (p s : string) : option string :=
  match p with
  | EmptyString => Some s
  | String a p' =>
      match s with
      | EmptyString => None
      | String b s' => if Ascii.eqb a b then strip_prefix p' s' else None
      end
  end.

Definition startsWith (p s : string) : bool :=
  match strip_prefix p s with Some _ => true | None => false end.

(** [s.includes(p)]. *)
Fixpoint includes (p s : string) : bool :=
  startsWith p s ||
  match s with
  | EmptyString => false
  | String _ s' => includes p s'
  end.

(** [s.endsWith(p)]. *)
Fixpoint endsWith (p s : string) : bool :=
  String.eqb p s ||
  match s with
  | EmptyString => false
  | String _ s' => endsWith p s'
  end.

(** [s.slice(1)]. *)
Definition slice1 (s : string) : string :=
  match s with
  | EmptyString => EmptyString
  | String _ s' => s'
  end.

(** The first [n] code units of [s]. *)
Fixpoint take (n : nat) (s : string) : string :=
  match n, s with
  | S n', String c s' => String c (take n' s')
  | _, _ => EmptyString
  end.

Definition in_range (lo hi : nat) (c : ascii) : bool :=
  (lo <=? nat_of_ascii c)%nat && (nat_of_ascii c <=? hi)%nat.

(** [toLowerCase] on the code units of the model: A-Z and the Latin-1
    capitals (U+00C0..U+00DE except the multiplication sign). *)
Definition lower_char (c : ascii) : ascii :=
  if in_range 65 90 c
     || (in_range 192 222 c && negb (Nat.eqb (nat_of_ascii c) 215))
  then ascii_of_nat (nat_of_ascii c + 32)
  else c.

Fixpoint toLowerCase (s : string) : string :=
  match s with
  | EmptyString => EmptyString
  | String c s' => String (lower_char c) (toLowerCase s')
  end.

Definition is_digit (c : ascii) : bool := in_range 48 57 c.

Fixpoint all (p : ascii -> bool) (s : string) : bool :=
  match s with
  | EmptyString => true
  | String c s' => p c && all p s'
  end.

(** JavaScript truthiness of a string. *)
Definition truthy (s : string) : bool :=
  match s with EmptyString => false | _ => true end.

Definition LF : ascii := ascii_of_nat 10.
Definition CR : ascii := ascii_of_nat 13.

End JsString.

Import JsString.

(** ** Backtracking regular expressions

    The fragment of ECMAScript regular expressions the helpers use:
    literals, greedy [+] and [*] over a character class, alternation,
    sequence and one capturing group.  Matching is the backtracking
    semantics of the language: alternatives are tried left to right, a
    quantifier tries the longest repetition first, and the search starts at
    the leftmost position that matches. *)

Module Regex.

Inductive regex : Type :=
| RLit (l : string)
| RPlus (p : ascii -> bool)
| RStar (p : ascii -> bool)
| RAlt (r1 r2 : regex)
| RSeq (r1 r2 : regex)
| RGroup (r : regex).

Section Matcher.
Context {A : Type}.

Definition or_else (x y : option A) : option A :=
  match x with Some _ => x | None => y end.

Fixpoint star_greedy (p : ascii -> bool) (s : string)
         (k : string -> option A) : option A :=
  match s with
  | EmptyString => k s
  | String c s' =>
      if p c then or_else (star_greedy p s' k) (k s) else k s
  end.

Definition plus_greedy (p : ascii -> bool) (s : string)
           (k : string -> option A) : option A :=
  match s with
  | EmptyString => None
  | String c s' => if p c then star_greedy p s' k else None
  end.

(** What a match that started at [s] and stopped at the suffix [s']
    consumed. *)
Definition consumed (s s' : string) : string :=
  take (String.length s - String.length s') s.

(** [rmatch r s cap k]: match [r] at the start of [s]; on success call
    the continuation with the rest of the input and the capture. *)
Fixpoint rmatch (r : regex) (s : string) (cap : option string)
         (k : string -> option string -> option A) : option A :=
  match r with
  | RLit l =>
      match strip_prefix l s with
      | Some s' => k s' cap
      | None => None
      end
  | RPlus p => plus_greedy p s (fun s' => k s' cap)
  | RStar p => star_greedy p s (fun s' => k s' cap)
  | RAlt r1 r2 => or_else (rmatch r1 s cap k) (rmatch r2 s cap k)
  | RSeq r1 r2 => rmatch r1 s cap (fun s' cap' => rmatch r2 s' cap' k)
  | RGroup r1 => rmatch r1 s cap (fun s' _ => k s' (Some (consumed s s')))
  end.
End Matcher.

(** A match anchored at the start of [s]: the capture of group 1. *)
Definition match_here (r : regex) (s : string) : option (option string) :=
  rmatch r s None (fun _ cap => Some cap).

(** [RegExp.prototype.exec] without the [g] flag: the leftmost match. *)
Fixpoint exec (r : regex) (s : string) : option (option string) :=
  match match_here r s with
  | Some cap => Some cap
  | None =>
      match s with
      | EmptyString => None
      | String _ s' => exec r s'
      end
  end.

(** [pattern.test(s)]. *)
Definition test (r : regex) (s : string) : bool :=
  match exec r s with Some _ => true | None => false end.

(** [m ? m[1] : null] for [m = s.match(pattern)]. *)
Definition match1 (r : regex) (s : string) : option string :=
  match exec r s with
  | Some group1 => group1
  | None => None
  end.

End Regex.

Import Regex.

(** ** utils/video-utils: the regular-expression helpers *)

(** The class [[^&\n?#]]. *)
Definition id_char (c : ascii) : bool :=
  negb (Ascii.eqb c "&" || Ascii.eqb c LF || Ascii.eqb c "?" || Ascii.eqb c "#").

(** The class [.]: anything but a line terminator. *)
Definition dot_char (c : ascii) : bool :=
  negb (Ascii.eqb c LF || Ascii.eqb c CR).

(** [/(?:youtube\.com\/watch\?v=|youtu\.be\/|youtube\.com\/embed\/)([^&\n?#]+)/] *)
Definition youtube_pattern1 : regex :=
  RSeq (RAlt (RLit "youtube.com/watch?v=")
             (RAlt (RLit "youtu.be/") (RLit "youtube.com/embed/")))
       (RGroup (RPlus id_char)).

(** [/youtube\.com\/v\/([^&\n?#]+)/] *)
Definition youtube_pattern2 : regex :=
  RSeq (RLit "youtube.com/v/") (RGroup (RPlus id_char)).

(** [/youtube\.com\/watch\?.*v=([^&\n?#]+)/] *)
Definition youtube_pattern3 : regex :=
  RSeq (RLit "youtube.com/watch?")
       (RSeq (RStar dot_char) (RSeq (RLit "v=") (RGroup (RPlus id_char)))).

(** [/vimeo\.com\/(\d+)/] *)
Definition vimeo_pattern : regex :=
  RSeq (RLit "vimeo.com/") (RGroup (RPlus is_digit)).

Definition patterns : list regex :=
  [youtube_pattern1; youtube_pattern2; youtube_pattern3].

(** The [for (const pattern of patterns)] loop. *)
Fixpoint first_match (ps : list regex) (url : string) : option string :=
  match ps with
  | [] => None
  | pattern :: ps' =>
      match exec pattern url with
      | Some group1 => group1
      | None => first_match ps' url
      end
  end.

Definition extractYouTubeVideoId (url : string) : option string :=
  first_match patterns url.

Definition isYouTubeUrl (url : string) : bool :=
  match extractYouTubeVideoId url with Some _ => true | None => false end.

Definition isVimeoUrl (url : string) : bool := test vimeo_pattern url.

Definition extractVimeoVideoId (url : string) : option string :=
  match1 vimeo_pattern url.

Inductive PlatformType : Type := youtube | vimeo | direct | unknown.

Definition getVideoPlatform (url : string) : PlatformType :=
  if isYouTubeUrl url then youtube
  else if isVimeoUrl url then vimeo
  else direct.

(** ** The platform's view of a URL and of [Number] *)

(** What [new URL(url)] exposes to the code: the host name, the path and the
    query parameters in their order of appearance. *)
Record URL : Type := mkURL {
  hostname : string;
  pathname : string;
  searchParams : list (string * string)
}.

(** [urlObj.searchParams.get(name)]: the first value under [name]. *)
Fixpoint searchParams_get (name : string) (ps : list (string * string))
  : option string :=
  match ps with
  | [] => None
  | (k, v) :: ps' => if String.eqb k name then Some v else searchParams_get name ps'
  end.

Module JsNumber.

Definition is_white (c : ascii) : bool :=
  let n := nat_of_ascii c in
  in_range 9 13 c || Nat.eqb n 32 || Nat.eqb n 160.

Fixpoint trimStart (s : string) : string :=
  match s with
  | EmptyString => EmptyString
  | String c s' => if is_white c then trimStart s' else s
  end.

Fixpoint trimEnd (s : string) : string :=
  match s with
  | EmptyString => EmptyString
  | String c s' =>
      let t := trimEnd s' in
      if is_white c && negb (truthy t) then EmptyString else String c t
  end.

(** The longest prefix of characters in [p], and the rest. *)
Fixpoint span (p : ascii -> bool) (s : string) : string * string :=
  match s with
  | EmptyString => (EmptyString, EmptyString)
  | String c s' =>
      if p c then let (d, r) := span p s' in (String c d, r)
      else (EmptyString, s)
  end.

Definition strip_sign (s : string) : string :=
  match s with
  | String c s' => if Ascii.eqb c "+" || Ascii.eqb c "-" then s' else s
  | EmptyString => s
  end.

(** Nothing, or an [ExponentPart]. *)
Definition exponent_opt (s : string) : bool :=
  match s with
  | EmptyString => true
  | String c s' =>
      if Ascii.eqb c "e" || Ascii.eqb c "E" then
        let (d, r) := span is_digit (strip_sign s') in
        truthy d && negb (truthy r)
      else false
  end.

(** [StrUnsignedDecimalLiteral]. *)
Definition unsigned_decimal (s : string) : bool :=
  if String.eqb s "Infinity" then true
  else
    let (d1, r1) := span is_digit s in
    match r1 with
    | String c r2 =>
        if Ascii.eqb c "." then
          let (d2, r3) := span is_digit r2 in
          (truthy d1 || truthy d2) && exponent_opt r3
        else truthy d1 && exponent_opt r1
    | EmptyString => truthy d1
    end.

Definition is_hex (c : ascii) : bool :=
  is_digit c || in_range 65 70 c || in_range 97 102 c.

(** [NonDecimalIntegerLiteral]: [0x], [0o] or [0b] and digits of the base. *)
Definition non_decimal (s : string) : bool :=
  match s with
  | String z (String x ds) =>
      Ascii.eqb z "0" && truthy ds &&
      (if Ascii.eqb x "x" || Ascii.eqb x "X" then all is_hex ds
       else if Ascii.eqb x "o" || Ascii.eqb x "O" then all (in_range 48 55) ds
       else if Ascii.eqb x "b" || Ascii.eqb x "B" then all (in_range 48 49) ds
       else false)
  | _ => false
  end.

(** [isNaN(Number(s))] for a string [s]: [Number] yields [NaN] exactly when
    the trimmed string is neither empty nor a [StrNumericLiteral]. *)
Definition isNaN_Number (s : string) : bool :=
  let t := trimEnd (trimStart s) in
  negb (negb (truthy t) || non_decimal t || unsigned_decimal (strip_sign t)).

End JsNumber.

Import JsNumber.

(** ** lib/video-utils: [parseVideoUrl] *)

Record VideoPlatform : Type := mkVideoPlatform {
  type : PlatformType;
  videoId : option string;
  embedUrl : option string;
  thumbnailUrl : option string
}.

Definition unknown_platform : VideoPlatform :=
  {| type := unknown; videoId := None; embedUrl := None; thumbnailUrl := None |}.

Definition videoExtensions : list string :=
  [".mp4"; ".webm"; ".ogg"; ".mov"; ".avi"].

(** [a || ''] where [a] is a string or [null]. *)
Definition or_empty (a : option string) : string :=
  match a with
  | Some s => s
  | None => EmptyString
  end.

Section Classifier.

(** The platform's URL constructor: [None] when [new URL(url)] throws. *)
Variable newURL : string -> option URL.

(** The YouTube branch: [Some] when it returns. *)
Definition youtube_branch (urlObj : URL) (hostname : string)
  : option VideoPlatform :=
  if includes "youtube.com" hostname || includes "youtu.be" hostname then
    let videoId :=
      if includes "youtu.be" hostname then slice1 (pathname urlObj)
      else if String.eqb (pathname urlObj) "/watch"
           then or_empty (searchParams_get "v" (searchParams urlObj))
           else EmptyString in
    if truthy videoId then
      Some {| type := youtube;
              videoId := Some videoId;
              embedUrl := Some ("https://www.youtube.com/embed/" ++ videoId);
              thumbnailUrl :=
                Some ("https://img.youtube.com/vi/" ++ videoId ++ "/maxresdefault.jpg") |}
    else None
  else None.

(** The Vimeo branch. *)
Definition vimeo_branch (urlObj : URL) (hostname : string)
  : option VideoPlatform :=
  if includes "vimeo.com" hostname then
    let videoId := slice1 (pathname urlObj) in
    if truthy videoId && negb (isNaN_Number videoId) then
      Some {| type := vimeo;
              videoId := Some videoId;
              embedUrl := Some ("https://player.vimeo.com/video/" ++ videoId);
              thumbnailUrl := Some ("https://vumbnail.com/" ++ videoId ++ ".jpg") |}
    else None
  else None.

Definition hasVideoExtension (urlObj : URL) : bool :=
  existsb (fun ext => endsWith ext (toLowerCase (pathname urlObj))) videoExtensions.

Definition parseVideoUrl (url : string) : VideoPlatform :=
  match newURL url with
  | None => unknown_platform
  | Some urlObj =>
      let hostname := toLowerCase (hostname urlObj) in
      match youtube_branch urlObj hostname with
      | Some platform => platform
      | None =>
          match vimeo_branch urlObj hostname with
          | Some platform => platform
          | None =>
              if hasVideoExtension urlObj then
                {| type := direct;
                   videoId := Some (pathname urlObj);
                   embedUrl := None;
                   thumbnailUrl := None |}
              else unknown_platform
          end
      end
  end.

End Classifier.

(** ** A reference URL parser

    [parseVideoUrl] is parametric in the platform's parser.  [URL_parse]
    reads plain absolute [http(s)://host/path?query#fragment] strings, the
    inputs on which the platform parser neither escapes nor normalises; it
    serves to run the classifier on concrete addresses. *)

Module ReferenceUrl.

(** Up to the first character in [stop], and from that character on. *)
Fixpoint break (stop : ascii -> bool) (s : string) : string * string :=
  match s with
  | EmptyString => (EmptyString, EmptyString)
  | String c s' =>
      if stop c then (EmptyString, s)
      else let (a, b) := break stop s' in (String c a, b)
  end.

Definition one_of (cs : string) (c : ascii) : bool :=
  includes (String c EmptyString) cs.

Fixpoint split_on (sep : ascii) (s : string) : list string :=
  match s with
  | EmptyString => [EmptyString]
  | String c s' =>
      if Ascii.eqb c sep then EmptyString :: split_on sep s'
      else match split_on sep s' with
           | h :: t => String c h :: t
           | [] => [String c EmptyString]
           end
  end.

Definition parse_pair (kv : string) : string * string :=
  let (k, r) := break (Ascii.eqb "=") kv in (k, slice1 r).

Definition parse_query (q : string) : list (string * string) :=
  map parse_pair (filter truthy (split_on "&" q)).

Definition scheme_rest (s : string) : option string :=
  match strip_prefix "https://" s with
  | Some r => Some r
  | None => strip_prefix "http://" s
  end.

Definition URL_parse (s : string) : option URL :=
  match scheme_rest s with
  | None => None
  | Some r =>
      let (host, r1) := break (one_of "/?#") r in
      let (path, r2) := break (one_of "?#") r1 in
      let (query, _) := break (one_of "#") r2 in
      if truthy host then
        Some {| hostname := host;
                pathname := if truthy path then path else "/";
                searchParams := parse_query (slice1 query) |}
      else None
  end.

End ReferenceUrl.

Import ReferenceUrl.

(** ** Errors and promises *)

(** A thrown JavaScript value, as far as the code tells them apart
    ([instanceof AppError], [instanceof TypeError], [instanceof Error]).
    [AppError] covers its subclasses, which differ in code and status. *)
Inductive JsError : Type :=
| AppError (message code : string) (statusCode : Z)
| TypeError (message : string)
| OtherError (message : string)
| NonError.

Inductive Promise (A : Type) : Type :=
| Pending
| Resolved (value : A)
| Rejected (reason : JsError).

Arguments Pending {A}.
Arguments Resolved {A} value.
Arguments Rejected {A} reason.

(** [resolve] and [reject] act on a pending promise only. *)
Definition settle {A} (p outcome : Promise A) : Promise A :=
  match p with
  | Pending => outcome
  | _ => p
  end.

(** ** [btoa] and the placeholder graphics *)

Module Base64.

Definition alphabet : string :=
  "ABCDEFGHIJKLMNOPQRSTUVWXYZabcdefghijklmnopqrstuvwxyz0123456789+/".

Definition digit64 (n : N) : ascii :=
  match String.get (N.to_nat (n mod 64)) alphabet with
  | Some c => c
  | None => "="%char
  end.

Definition pad : ascii := "="%char.

Definition quad (a b c d : ascii) (rest : string) : string :=
  String a (String b (String c (String d rest))).

(** [btoa] over code units below 256, three at a time. *)
Fixpoint btoa (s : string) : string :=
  match s with
  | EmptyString => EmptyString
  | String a EmptyString =>
      let n := (N_of_ascii a * 65536)%N in
      quad (digit64 (n / 262144)) (digit64 (n / 4096)) pad pad EmptyString
  | String a (String b EmptyString) =>
      let n := (N_of_ascii a * 65536 + N_of_ascii b * 256)%N in
      quad (digit64 (n / 262144)) (digit64 (n / 4096)) (digit64 (n / 64)) pad
           EmptyString
  | String a (String b (String c s')) =>
      let n := (N_of_ascii a * 65536 + N_of_ascii b * 256 + N_of_ascii c)%N in
      quad (digit64 (n / 262144)) (digit64 (n / 4096)) (digit64 (n / 64))
           (digit64 n) (btoa s')
  end.

End Base64.

Import Base64.

Module Svg.

Definition quote : string := String (ascii_of_nat 34) EmptyString.

Fixpoint spaces (n : nat) : string :=
  match n with
  | O => EmptyString
  | S n' => String " " (spaces n')
  end.

(** A line break of the template literal and the indentation after it. *)
Definition nl (indent : nat) : string := String LF (spaces indent).

Definition attr (name value : string) : string :=
  " " ++ name ++ "=" ++ quote ++ value ++ quote.

Definition svg_open : string :=
  "<svg" ++ attr "width" "400" ++ attr "height" "250"
         ++ attr "xmlns" "http://www.w3.org/2000/svg" ++ ">".

Definition background : string :=
  "<rect" ++ attr "width" "400" ++ attr "height" "250"
          ++ attr "fill" "#f3f4f6" ++ "/>".

(** The grey "Video" card; [indent] is the column of the [<svg>] tag in the
    source, which differs between the copies of the template. *)
Definition videoCardSvg (indent : nat) : string :=
  nl indent ++ svg_open
  ++ nl (indent + 2) ++ background
  ++ nl (indent + 2) ++ "<rect" ++ attr "x" "150" ++ attr "y" "100"
       ++ attr "width" "100" ++ attr "height" "50" ++ attr "fill" "#d1d5db"
       ++ attr "rx" "4" ++ "/>"
  ++ nl (indent + 2) ++ "<text" ++ attr "x" "200" ++ attr "y" "130"
       ++ attr "font-family" "Arial" ++ attr "font-size" "12"
       ++ attr "fill" "#6b7280" ++ attr "text-anchor" "middle" ++ ">"
  ++ nl (indent + 4) ++ "Video"
  ++ nl (indent + 2) ++ "</text>"
  ++ nl indent ++ "</svg>"
  ++ nl (indent - 2).

(** The text-only card of [getVideoThumbnail]. *)
Definition messageSvg (indent : nat) (message : string) : string :=
  nl indent ++ svg_open
  ++ nl (indent + 2) ++ background
  ++ nl (indent + 2) ++ "<text" ++ attr "x" "200" ++ attr "y" "125"
       ++ attr "font-family" "Arial" ++ attr "font-size" "16"
       ++ attr "fill" "#6b7280" ++ attr "text-anchor" "middle" ++ ">"
  ++ nl (indent + 4) ++ message
  ++ nl (indent + 2) ++ "</text>"
  ++ nl indent ++ "</svg>"
  ++ nl (indent - 2).

Definition dataUri (svg : string) : string :=
  "data:image/svg+xml;base64," ++ btoa svg.

End Svg.

Import Svg.

(** ** lib/video-utils: [generateVideoThumbnail] and [getVideoThumbnail] *)

(** What the canvas does when the [seeked] handler runs. *)
Inductive CanvasResult : Type :=
| NoContext                      (* [getContext('2d')] returned [null] *)
| CanvasThrows (e : JsError)     (* [drawImage] or [toDataURL] threw *)
| DataUrl (payload : string).    (* [toDataURL] returned [data:] and a payload *)

(** The events of the detached [<video>] element. *)
Inductive VideoEvent : Type :=
| Loadedmetadata (duration : Q) (seekable : bool)
| Seeked (canvas : CanvasResult)
| ErrorEvent.

(** The element and the promise, as the three handlers see them. *)
Record Capture : Type := mkCapture {
  promise : Promise string;
  currentTime : Q
}.

Definition onloadedmetadata (duration : Q) (seekable : bool) (c : Capture)
  : Capture :=
  let seekTime := Qmin 1 (duration * (1 # 10))%Q in
  {| promise := promise c;
     currentTime := if seekable then seekTime else 0 |}.

Definition onseeked (canvas : CanvasResult) (c : Capture) : Capture :=
  let outcome :=
    match canvas with
    | NoContext => Rejected (OtherError "Could not get canvas context")
    | CanvasThrows e => Rejected e
    | DataUrl payload => Resolved ("data:" ++ payload)
    end in
  {| promise := settle (promise c) outcome; currentTime := currentTime c |}.

Definition onerror (c : Capture) : Capture :=
  {| promise := settle (promise c) (Resolved (dataUri (videoCardSvg 8)));
     currentTime := currentTime c |}.

Definition dispatch (c : Capture) (e : VideoEvent) : Capture :=
  match e with
  | Loadedmetadata duration seekable => onloadedmetadata duration seekable c
  | Seeked canvas => onseeked canvas c
  | ErrorEvent => onerror c
  end.

Section Thumbnails.

Variable newURL : string -> option URL.

(** [window.location.hostname]. *)
Variable location_hostname : string.

Definition isExternalDomain (urlObj : URL) : bool :=
  negb (String.eqb (hostname urlObj) location_hostname)
  && negb (includes "localhost" (hostname urlObj))
  && negb (includes "127.0.0.1" (hostname urlObj)).

(** The promise returned for [videoUrl] once the element has delivered
    [events], oldest first. *)
Definition generateVideoThumbnail (videoUrl : string)
           (events : list VideoEvent) : Promise string :=
  let platform := parseVideoUrl newURL videoUrl in
  match type platform with
  | direct =>
      match newURL videoUrl with
      | Some urlObj =>
          if isExternalDomain urlObj
          then Resolved (dataUri (videoCardSvg 10))
          else promise (fold_left dispatch events
                                  {| promise := Pending; currentTime := 0 |})
      | None => Resolved (dataUri (videoCardSvg 8))
      end
  | _ => Rejected (OtherError "Not a direct video file")
  end.

Definition getVideoThumbnail (videoUrl : string) : string :=
  let platform := parseVideoUrl newURL videoUrl in
  if truthy (or_empty (thumbnailUrl platform)) then or_empty (thumbnailUrl platform)
  else
    match type platform with
    | direct => dataUri (messageSvg 6 "Loading thumbnail...")
    | _ => dataUri (messageSvg 4 "No thumbnail available")
    end.

(** The [thumbnailUrl] state of [VideoThumbnail] after its effect ran for
    [videoUrl] and the element delivered [events]; the state starts empty
    and stays so while the promise is pending. *)
Definition VideoThumbnail_thumbnailUrl (videoUrl : string)
           (events : list VideoEvent) : string :=
  match type (parseVideoUrl newURL videoUrl) with
  | direct =>
      match generateVideoThumbnail videoUrl events with
      | Resolved generatedThumbnail => generatedThumbnail
      | Rejected _ => dataUri (videoCardSvg 12)
      | Pending => EmptyString
      end
  | _ => getVideoThumbnail videoUrl
  end.

End Thumbnails.

(** ** Numbers of the player *)

Definition Qlt_bool (a b : Q) : bool := negb (Qle_bool b a).

(** [value[0]] of a slider's array; [None] stands for [undefined]. *)
Definition value0 (value : list Q) : option Q := hd_error value.

(** ** The timers of the runtime

    Every timeout the player arms runs the same callback,
    [setShowControls(false)], so a pending timeout is its id and its
    deadline.  Ids are fresh and non-zero; the list keeps creation order,
    which is also deadline order because every delay is the same. *)

Module Timers.

Record Timer : Type := mkTimer { timer_id : nat; fires_at : Z }.

Record Runtime : Type := mkRuntime {
  clock : Z;
  next_id : nat;
  pending : list Timer;
  fired : list nat
}.

Definition boot : Runtime :=
  {| clock := 0; next_id := 1; pending := []; fired := [] |}.

Definition setTimeout (delay : Z) (rt : Runtime) : nat * Runtime :=
  (next_id rt,
   {| clock := clock rt;
      next_id := S (next_id rt);
      pending := pending rt ++ [{| timer_id := next_id rt;
                                   fires_at := (clock rt + delay)%Z |}];
      fired := fired rt |}).

Definition clearTimeout (id : nat) (rt : Runtime) : Runtime :=
  {| clock := clock rt;
     next_id := next_id rt;
     pending := filter (fun t => negb (Nat.eqb (timer_id t) id)) (pending rt);
     fired := fired rt |}.

Definition due (now : Z) (t : Timer) : bool := (fires_at t <=? now)%Z.

(** Let [ms] milliseconds pass: the timeouts whose deadline is reached
    leave the pending list and are recorded as fired, oldest first. *)
Definition elapse (ms : Z) (rt : Runtime) : Runtime :=
  let now := (clock rt + ms)%Z in
  {| clock := now;
     next_id := next_id rt;
     pending := filter (fun t => negb (due now t)) (pending rt);
     fired := fired rt ++ map timer_id (filter (due now) (pending rt)) |}.

End Timers.

Import Timers.

(** ** hooks/useVideoPlayer *)

Module UseVideoPlayer.

Record VideoPlayerState : Type := mkState {
  playing : bool;
  volume : Q;
  muted : bool;
  played : Q;
  duration : Q;
  showControls : bool;
  error : option string;
  playbackRate : Q;
  loading : bool;
  buffering : bool
}.

Definition initialState : VideoPlayerState :=
  {| playing := false; volume := 8 # 10; muted := true; played := 0;
     duration := 0; showControls := true; error := None; playbackRate := 1;
     loading := true; buffering := false |}.

(** *** Actions *)

Definition setPlaying (b : bool) (s : VideoPlayerState) :=
  mkState b (volume s) (muted s) (played s) (duration s) (showControls s)
          (error s) (playbackRate s) (loading s) (buffering s).
Definition setVolume (v : Q) (s : VideoPlayerState) :=
  mkState (playing s) v (muted s) (played s) (duration s) (showControls s)
          (error s) (playbackRate s) (loading s) (buffering s).
Definition setMuted (b : bool) (s : VideoPlayerState) :=
  mkState (playing s) (volume s) b (played s) (duration s) (showControls s)
          (error s) (playbackRate s) (loading s) (buffering s).
Definition setPlayed (p : Q) (s : VideoPlayerState) :=
  mkState (playing s) (volume s) (muted s) p (duration s) (showControls s)
          (error s) (playbackRate s) (loading s) (buffering s).
Definition setDuration (d : Q) (s : VideoPlayerState) :=
  mkState (playing s) (volume s) (muted s) (played s) d (showControls s)
          (error s) (playbackRate s) (loading s) (buffering s).
Definition setShowControls (b : bool) (s : VideoPlayerState) :=
  mkState (playing s) (volume s) (muted s) (played s) (duration s) b
          (error s) (playbackRate s) (loading s) (buffering s).
Definition setError (e : option string) (s : VideoPlayerState) :=
  mkState (playing s) (volume s) (muted s) (played s) (duration s)
          (showControls s) e (playbackRate s) (loading s) (buffering s).
Definition setPlaybackRate (r : Q) (s : VideoPlayerState) :=
  mkState (playing s) (volume s) (muted s) (played s) (duration s)
          (showControls s) (error s) r (loading s) (buffering s).
Definition setLoading (b : bool) (s : VideoPlayerState) :=
  mkState (playing s) (volume s) (muted s) (played s) (duration s)
          (showControls s) (error s) (playbackRate s) b (buffering s).
Definition setBuffering (b : bool) (s : VideoPlayerState) :=
  mkState (playing s) (volume s) (muted s) (played s) (duration s)
          (showControls s) (error s) (playbackRate s) (loading s) b.

(** What the hook sends to the player library through [playerRef]. *)
Inductive PlayerCall : Type :=
| seekTo_seconds (seekTime : Q)     (* [seekTo(seekTime, 'seconds')] *)
| seekTo_amount (amount : Q).       (* [seekTo(amount)] *)

(** One mounted hook: the React state, the two refs, the runtime's timers
    and the calls made on the player so far. *)
Record Hook : Type := mkHook {
  state : VideoPlayerState;
  playerRef : bool;                      (* is [playerRef.current] set *)
  controlsTimeoutRef : option nat;
  runtime : Runtime;
  calls : list PlayerCall
}.

Definition mount (player : bool) : Hook :=
  {| state := initialState; playerRef := player; controlsTimeoutRef := None;
     runtime := boot; calls := [] |}.

Definition with_state (f : VideoPlayerState -> VideoPlayerState) (h : Hook) : Hook :=
  mkHook (f (state h)) (playerRef h) (controlsTimeoutRef h) (runtime h) (calls h).

Definition call (c : PlayerCall) (h : Hook) : Hook :=
  mkHook (state h) (playerRef h) (controlsTimeoutRef h) (runtime h) (calls h ++ [c]).

(** *** Handlers *)

Definition handlePlayPause (h : Hook) : Hook :=
  with_state (setShowControls true)
    (with_state (setPlaying (negb (playing (state h)))) h).

Definition handleVolumeChange (value : list Q) (h : Hook) : option Hook :=
  match value0 value with
  | None => None
  | Some newVolume =>
      let h1 := with_state (setVolume newVolume) h in
      Some (if Qeq_bool newVolume 0 then with_state (setMuted true) h1
            else if muted (state h) then with_state (setMuted false) h1
            else h1)
  end.

Definition handleMuteToggle (h : Hook) : Hook :=
  with_state (setShowControls true)
    (with_state (setMuted (negb (muted (state h)))) h).

Definition handleSeek (value : list Q) (h : Hook) : option Hook :=
  match value0 value with
  | None => None
  | Some seekTo =>
      let h1 := with_state (setPlayed seekTo) h in
      Some (if playerRef h && Qlt_bool 0 (duration (state h)) then
              let seekTime := (seekTo * duration (state h))%Q in
              call (seekTo_seconds seekTime) h1
            else h1)
  end.

(** [if (ref.current) clearTimeout(ref.current)]. *)
Definition clear_controls_timeout (h : Hook) : Hook :=
  match controlsTimeoutRef h with
  | Some id =>
      if Nat.eqb id 0 then h
      else mkHook (state h) (playerRef h) (controlsTimeoutRef h)
                  (clearTimeout id (runtime h)) (calls h)
  | None => h
  end.

(** [ref.current = setTimeout(() => setShowControls(false), 3000)]. *)
Definition arm_controls_timeout (h : Hook) : Hook :=
  let (id, rt) := setTimeout 3000 (runtime h) in
  mkHook (state h) (playerRef h) (Some id) rt (calls h).

Definition handleVideoClick (h : Hook) : Hook :=
  let h1 := with_state (setPlaying (negb (playing (state h)))) h in
  let h2 := with_state (setShowControls true) h1 in
  arm_controls_timeout (clear_controls_timeout h2).

Definition handleError (h : Hook) : Hook :=
  with_state (setBuffering false)
    (with_state (setLoading false)
       (with_state (setError (Some "Failed to load video")) h)).

(** [data] is [data.duration] when the ready event carries one. *)
Definition handleLoad (data : option Q) (h : Hook) : Hook :=
  let h1 := with_state (setError None) h in
  let h2 := with_state (setLoading false) h1 in
  let h3 := with_state (setBuffering false) h2 in
  let h4 := with_state (setShowControls true) h3 in
  let h5 :=
    match data with
    | Some d => if Qeq_bool d 0 then h4 else with_state (setDuration d) h4
    | None => h4
    end in
  arm_controls_timeout h5.

(** The arrow keys; [currentTime] is what [getCurrentTime()] returned. *)
Definition keyArrowRight (currentTime : Q) (h : Hook) : Hook :=
  if playerRef h && Qlt_bool 0 (duration (state h)) then
    let newTime := Qmin (currentTime + 10)%Q (duration (state h)) in
    call (seekTo_amount (newTime / duration (state h))%Q) h
  else h.

Definition keyArrowLeft (currentTime : Q) (h : Hook) : Hook :=
  if playerRef h && Qlt_bool 0 (duration (state h)) then
    let newTime := Qmax (currentTime - 10)%Q 0 in
    call (seekTo_amount (newTime / duration (state h))%Q) h
  else h.

(** Time passes: due timeouts run their callback. *)
Definition wait (ms : Z) (h : Hook) : Hook :=
  let rt := elapse ms (runtime h) in
  let ran := List.length (fired rt) - List.length (fired (runtime h)) in
  mkHook (if Nat.eqb ran 0 then state h else setShowControls false (state h))
         (playerRef h) (controlsTimeoutRef h) rt (calls h).

(** The cleanup effect of unmount. *)
Definition unmount (h : Hook) : Hook := clear_controls_timeout h.

(** What can happen to a mounted hook, for traces. *)
Inductive Step : Type :=
| VideoClick
| Load (data : option Q)
| PlayPause
| Wait (ms : Z).

Definition step (h : Hook) (s : Step) : Hook :=
  match s with
  | VideoClick => handleVideoClick h
  | Load data => handleLoad data h
  | PlayPause => handlePlayPause h
  | Wait ms => wait ms h
  end.

Definition run (trace : list Step) (h : Hook) : Hook := fold_left step trace h.

End UseVideoPlayer.

(** ** components/VimeoPlayer *)

Module VimeoPlayer.

Inductive PlayerCall : Type :=
| setVolume_call (v : Q)
| setCurrentTime_call (t : Q).

Record Component : Type := mkComponent {
  playing : bool;
  volume : Q;
  muted : bool;
  showControls : bool;
  error : option string;
  playbackRate : Q;
  loading : bool;
  duration : Q;
  played : Q;
  player : bool;                         (* is the [player] state set *)
  calls : list PlayerCall
}.

Definition initial : Component :=
  {| playing := true; volume := 8 # 10; muted := true; showControls := true;
     error := None; playbackRate := 1; loading := true; duration := 0;
     played := 0; player := false; calls := [] |}.

Definition handleVolumeChange (value : list Q) (c : Component)
  : option Component :=
  match value0 value with
  | None => None
  | Some newVolume =>
      let calls' :=
        if player c then (calls c ++ [setVolume_call newVolume])%list
        else calls c in
      let muted' :=
        if Qeq_bool newVolume 0 then true
        else if muted c then false
        else muted c in
      Some (mkComponent (playing c) newVolume muted' (showControls c) (error c)
                        (playbackRate c) (loading c) (duration c) (played c)
                        (player c) calls')
  end.

Definition handleSeek (value : list Q) (c : Component) : option Component :=
  match value0 value with
  | None => None
  | Some seekTo =>
      let calls' :=
        if player c
        then (calls c ++ [setCurrentTime_call (seekTo * duration c)%Q])%list
        else calls c in
      Some (mkComponent (playing c) (volume c) (muted c) (showControls c)
                        (error c) (playbackRate c) (loading c) (duration c)
                        seekTo (player c) calls')
  end.

End VimeoPlayer.

(** ** lib/error-handler and lib/api-client *)

Module ApiClient.

(** How a call ends: with a value, or by throwing (for an [async] function,
    by fulfilling or rejecting its promise). *)
Inductive Completion (A : Type) : Type :=
| Normal (a : A)
| Throw (e : JsError).

Arguments Normal {A} a.
Arguments Throw {A} e.

(** [String(n)] for an integer. *)
Definition Number_toString (n : Z) : string :=
  NilEmpty.string_of_int (Z.to_int n).

(** [array.join(sep)] over strings. *)
Definition join (sep : string) (items : list string) : string :=
  String.concat sep items.

(** [APP_CONFIG.messages.errors.networkError]. *)
Definition networkError_message : string :=
  "Network error. Please check your connection.".

(** [new AppError(message, code)]: the status defaults to 500. *)
Definition AppError_default (message code : string) : JsError :=
  AppError message code 500.

(** [new NetworkError(message)]. *)
Definition NetworkError (message : string) : JsError :=
  AppError message "NETWORK_ERROR" 0.

Definition handleNetworkError (error : JsError) : JsError :=
  match error with
  | AppError _ _ _ => error
  | TypeError message =>
      if includes "fetch" message then NetworkError networkError_message
      else AppError_default message "UNKNOWN_ERROR"
  | OtherError message => AppError_default message "UNKNOWN_ERROR"
  | NonError => AppError_default "An unexpected error occurred" "UNKNOWN_ERROR"
  end.

(** [FastAPIValidationError], as the interface declares it. *)
Inductive LocItem : Type :=
| loc_string (s : string)
| loc_number (n : Z).

Record ValidationDetail : Type := mkDetail {
  loc : list LocItem;
  msg : string;
  type : string
}.

Record FastAPIValidationError : Type := mkValidationError {
  detail : list ValidationDetail
}.

Definition LocItem_toString (item : LocItem) : string :=
  match item with
  | loc_string s => s
  | loc_number n => Number_toString n
  end.

(** [`${detail.loc.join('.')}: ${detail.msg}`] *)
Definition detail_message (d : ValidationDetail) : string :=
  join "." (map LocItem_toString (loc d)) ++ ": " ++ msg d.

Definition errorMessage (validationError : FastAPIValidationError) : string :=
  join ", " (map detail_message (detail validationError)).

(** A [fetch] response: [json] and [text] are what the two body readers
    deliver.  [json] is typed by the interface its result is assigned to:
    it is the validation list, or the error thrown on the way to it, by
    the reader when the body is not JSON and by [detail.map] when the JSON
    has another shape. *)
Record Response : Type := mkResponse {
  status : Z;
  statusText : string;
  json : Completion FastAPIValidationError;
  text : Completion string
}.

(** [response.ok]: the status is in the range 200-299. *)
Definition ok (response : Response) : bool :=
  (200 <=? status response)%Z && (status response <=? 299)%Z.

Definition page_default : Z := 1.
Definition limit_default : Z := 12.

Record PaginationParams : Type := mkParams {
  param_page : option Z;
  param_limit : option Z;
  param_offset : option Z
}.

(** A number that may be infinite, or not a number. *)
Inductive JsNumber : Type :=
| Finite (z : Z)
| PosInfinity
| NegInfinity
| NaN.

(** [Math.ceil(total / limit)]; [None] is [undefined]. *)
Definition ceil_div (total : option Z) (limit : Z) : JsNumber :=
  match total with
  | None => NaN
  | Some t =>
      if (limit =? 0)%Z then
        if (t =? 0)%Z then NaN
        else if (0 <? t)%Z then PosInfinity else NegInfinity
      else Finite (- ((- t) / limit))%Z
  end.

(** [page < n]. *)
Definition less_than (page : Z) (n : JsNumber) : bool :=
  match n with
  | Finite z => (page <? z)%Z
  | PosInfinity => true
  | NegInfinity => false
  | NaN => false
  end.

Definition truthy_number (n : option Z) : bool :=
  match n with
  | Some z => negb (z =? 0)%Z
  | None => false
  end.

(** [a || b] on numbers. *)
Definition or_number (a b : option Z) : option Z :=
  if truthy_number a then a else b.

Record Pagination : Type := mkPagination {
  page : Z;
  limit : Z;
  total : option Z;
  totalPages : JsNumber;
  hasNext : bool;
  hasPrev : bool
}.

Section Client.

(** The backend's video entity. *)
Variable Video : Type.

(** A listing object of the backend: the fields the client reads. *)
Record Listing : Type := mkListing {
  videos : option (list Video);
  data : option (list Video);
  listing_total : option Z;
  count : option Z
}.

(** The values [request] can deliver, by what the callers test on them. *)
Inductive ApiData : Type :=
| DataString (s : string)
| DataArray (items : list Video)
| DataObject (o : Listing)
| DataNull
| DataPrimitive.                   (* a number or a boolean *)

(** [JSON.parse]: [None] when it throws. *)
Variable JSON_parse : string -> option ApiData.

(** [try { ... } catch (error) { throw handleNetworkError(error) }] *)
Definition rethrow {A} (body : Completion A) : Completion A :=
  match body with
  | Normal a => Normal a
  | Throw e => Throw (handleNetworkError e)
  end.

(** [request], from the outcome of [fetch] on. *)
Definition request (fetched : Completion Response) : Completion ApiData :=
  rethrow
    match fetched with
    | Throw e => Throw e
    | Normal response =>
        if negb (ok response) then
          if (status response =? 422)%Z then
            match json response with
            | Throw e => Throw e
            | Normal validationError =>
                Throw (AppError (errorMessage validationError)
                                "VALIDATION_ERROR" 422)
            end
          else
            Throw (AppError ("HTTP " ++ Number_toString (status response)
                                     ++ ": " ++ statusText response)
                            "API_ERROR" (status response))
        else
          match text response with
          | Throw e => Throw e
          | Normal responseText =>
              Normal match JSON_parse responseText with
                     | Some data => data
                     | None => DataString responseText
                     end
          end
    end.

(** [videos.length]. *)
Definition length_of (videos : ApiData) : option Z :=
  match videos with
  | DataArray items => Some (Z.of_nat (List.length items))
  | DataString s => Some (Z.of_nat (String.length s))
  | _ => None
  end.

(** [videos = r.videos || r.data || r; total = r.total || r.count ||
    videos.length]; reading a property of [null] throws. *)
Definition normalize (r : ApiData) : Completion (ApiData * option Z) :=
  match r with
  | DataNull => Throw (TypeError "Cannot read properties of null")
  | DataObject o =>
      let videos :=
        match videos o, data o with
        | Some items, _ => DataArray items
        | None, Some items => DataArray items
        | None, None => r
        end in
      Normal (videos,
              or_number (listing_total o) (or_number (count o) (length_of videos)))
  | _ => Normal (r, length_of r)
  end.

Record PaginatedResponse : Type := mkPaginated {
  response_data : ApiData;
  pagination : Pagination
}.

(** [getVideosPaginated], from the outcome of [request] on. *)
Definition getVideosPaginated (params : PaginationParams)
           (requested : Completion ApiData) : Completion PaginatedResponse :=
  let page := match param_page params with Some p => p | None => page_default end in
  let limit := match param_limit params with Some l => l | None => limit_default end in
  match requested with
  | Throw e => Throw e
  | Normal response =>
      let normalized :=
        match response with
        | DataString s =>
            match JSON_parse s with
            | Some parsed =>
                match normalize parsed with
                | Normal vt => Normal vt
                | Throw _ =>
                    Throw (AppError_default "Invalid response format from server"
                                            "PARSE_ERROR")
                end
            | None =>
                Throw (AppError_default "Invalid response format from server"
                                        "PARSE_ERROR")
            end
        | DataArray _ | DataObject _ => normalize response
        | DataNull | DataPrimitive => Normal (DataArray [], Some 0%Z)
        end in
      match normalized with
      | Throw e => Throw e
      | Normal (videos, total) =>
          let totalPages := ceil_div total limit in
          Normal {| response_data := videos;
                    pagination :=
                      {| page := page;
                         limit := limit;
                         total := total;
                         totalPages := totalPages;
                         hasNext := less_than page totalPages;
                         hasPrev := (1 <? page)%Z |} |}
      end
  end.

End Client.

Arguments DataString {Video} s.
Arguments DataArray {Video} items.
Arguments DataObject {Video} o.
Arguments DataNull {Video}.
Arguments DataPrimitive {Video}.
Arguments mkListing {Video} videos data listing_total count.
Arguments request {Video} JSON_parse fetched.
Arguments normalize {Video} r.
Arguments length_of {Video} videos.
Arguments getVideosPaginated {Video} JSON_parse params requested.
Arguments response_data {Video} p.
Arguments pagination {Video} p.

(** [createPaginatedResponse]'s pagination block. *)
Definition createPaginatedResponse_pagination (page limit total : Z)
  : Pagination :=
  {| page := page;
     limit := limit;
     total := Some total;
     totalPages := ceil_div (Some total) limit;
     hasNext := (page * limit <? total)%Z;
     hasPrev := (1 <? page)%Z |}.

End ApiClient.

(** A match result whose group 1 took part in the match. *)
Definition captured (v : option string) : Prop := exists group1, v = Some group1.

(** ** The address shapes the properties speak about *)

Definition watch_url (X : string) : string := "https://youtube.com/watch?v=" ++ X.
Definition short_url (X : string) : string := "https://youtu.be/" ++ X.
Definition embed_url (X : string) : string := "https://youtube.com/embed/" ++ X.
Definition vimeo_url (ds : string) : string := "https://vimeo.com/" ++ ds.

(** Events that only carry metadata: the promise is still pending after
    them. *)
Definition is_metadata (e : VideoEvent) : bool :=
  match e with
  | Loadedmetadata _ _ => true
  | _ => false
  end.

(** The promise never holds an empty image reference. *)
Definition never_empty (p : Promise string) : Prop :=
  forall v, p = Resolved v -> v <> EmptyString.

(** An image reference written as a [data:] URI. *)
Definition is_data_uri (v : string) : bool := startsWith "data:" v.

(** Whatever the promise resolves to is a [data:] URI. *)
Definition resolves_to_data_uri (p : Promise string) : Prop :=
  forall v, p = Resolved v -> is_data_uri v = true.

(** ** Player states the properties speak about *)

(** A mounted hook whose player is attached and whose duration is known. *)
Definition ready_hook (duration : Q) : UseVideoPlayer.Hook :=
  UseVideoPlayer.with_state (UseVideoPlayer.setDuration duration)
                            (UseVideoPlayer.mount true).

(** A Vimeo component whose player is attached. *)
Definition ready_vimeo : VimeoPlayer.Component :=
  VimeoPlayer.mkComponent true (8 # 10) true true None 1 false 0 0 true [].

(** At most one hide timer is pending, and it is the one the ref holds. *)
Definition single_timer (h : UseVideoPlayer.Hook) : Prop :=
  next_id (UseVideoPlayer.runtime h) <> O /\
  (pending (UseVideoPlayer.runtime h) = [] \/
   exists t, pending (UseVideoPlayer.runtime h) = [t] /\
             UseVideoPlayer.controlsTimeoutRef h = Some (timer_id t) /\
             timer_id t <> O).

Definition is_load (s : UseVideoPlayer.Step) : bool :=
  match s with
  | UseVideoPlayer.Load _ => true
  | _ => false
  end.

(** ** REST data the properties speak about *)

(** [n] is the ceiling of [t / l] for a positive [l]. *)
Definition is_ceiling (n t l : Z) : Prop := ((n - 1) * l < t <= n * l)%Z.

(** A listing object [{videos: items, total: t}]. *)
Definition listing_with_total {Video} (items : list Video) (t : Z)
  : ApiClient.ApiData Video :=
  ApiClient.DataObject (ApiClient.mkListing (Some items) None (Some t) None).

Definition page_of_12 (p : Z) : ApiClient.PaginationParams :=
  ApiClient.mkParams (Some p) (Some 12%Z) None.

(** Eight videos, by title. *)
Definition eight_titles : list string :=
  ["Intro"; "Sets"; "Maps"; "Trees"; "Graphs"; "Sorting"; "Hashing"; "Review"].

(** What [getVideosPaginated] answers for page [p] of 12 when the backend
    sends the eight videos and a total of 20. *)
Definition page_of_20 (p : Z) : ApiClient.PaginatedResponse string :=
  ApiClient.mkPaginated string (ApiClient.DataArray eight_titles)
    (ApiClient.mkPagination p 12 (Some 20%Z) (ApiClient.Finite 2)
                            (p <? 2)%Z (1 <? p)%Z).

(** ** lib/video-utils: the remaining helpers *)

(** Case folding of the [i] flag on code units below 256: only the ASCII
    letters fold onto the ASCII letters of a pattern. *)
Definition fold_char (c : ascii) : ascii :=
  if in_range 65 90 c then ascii_of_nat (nat_of_ascii c + 32) else c.

Fixpoint fold_case (s : string) : string :=
  match s with
  | EmptyString => EmptyString
  | String c s' => String (fold_char c) (fold_case s')
  end.

(** [pathname.match(/\.(mp4|webm|ogg|mov|avi|mkv)$/i)] as a truth value:
    the path ends, up to case, in a dot and one of the six names. *)
Definition validExtensions : list string :=
  [".mp4"; ".webm"; ".ogg"; ".mov"; ".avi"; ".mkv"].

Definition matches_video_extension (pathname : string) : bool :=
  existsb (fun ext => endsWith ext (fold_case pathname)) validExtensions.

Section VideoUtils.

Variable newURL : string -> option URL.

Definition getVideoEmbedUrl (videoUrl : string) : option string :=
  match embedUrl (parseVideoUrl newURL videoUrl) with
  | Some e => if truthy e then Some e else None
  | None => None
  end.

Definition isEmbeddablePlatform (videoUrl : string) : bool :=
  match type (parseVideoUrl newURL videoUrl) with
  | youtube | vimeo => true
  | _ => false
  end.

Definition isValidVideoUrl (url : string) : bool :=
  match newURL url with
  | None => false
  | Some urlObj =>
      if includes "youtube.com" (hostname urlObj)
         || includes "youtu.be" (hostname urlObj) then true
      else if includes "vimeo.com" (hostname urlObj) then true
      else if matches_video_extension (pathname urlObj) then true
      else false
  end.

End VideoUtils.

(** A classification whose fields fit its kind, as [parseVideoUrl] builds
    them. *)
Definition well_formed (p : VideoPlatform) : Prop :=
  match type p with
  | youtube =>
      exists id, id <> EmptyString /\ videoId p = Some id /\
        embedUrl p = Some ("https://www.youtube.com/embed/" ++ id) /\
        thumbnailUrl p
        = Some ("https://img.youtube.com/vi/" ++ id ++ "/maxresdefault.jpg")
  | vimeo =>
      exists id, id <> EmptyString /\ isNaN_Number id = false /\
        videoId p = Some id /\
        embedUrl p = Some ("https://player.vimeo.com/video/" ++ id) /\
        thumbnailUrl p = Some ("https://vumbnail.com/" ++ id ++ ".jpg")
  | direct =>
      (exists path, videoId p = Some path) /\
      embedUrl p = None /\ thumbnailUrl p = None
  | unknown => videoId p = None /\ embedUrl p = None /\ thumbnailUrl p = None
  end.

(** ** components/VideoPlayer: what the native player is given *)


(** ** hooks/useVideoPlayer: progress events *)

Module Progress.

Import UseVideoPlayer.

(** The [progressState] of the player library; [None] is a missing
    duration. *)
Record ProgressState : Type := mkProgress {
  progress_played : Q;
  progress_loaded : Q;
  progress_duration : option Q
}.

Definition bufferThreshold : Q := 1 # 10.

Definition handleProgress (progressState : ProgressState) (h : Hook) : Hook :=
  let h1 := with_state (setPlayed (progress_played progressState)) h in
  let h2 :=
    match progress_duration progressState with
    | Some d =>
        if negb (Qeq_bool d 0) && Qlt_bool 0 d
        then with_state (setDuration d) h1
        else h1
    | None => h1
    end in
  if Qlt_bool 0 (progress_loaded progressState)
     && Qlt_bool (progress_played progressState) 1
  then
    if Qlt_bool (progress_loaded progressState - progress_played progressState)%Q
                bufferThreshold
    then with_state (setBuffering true) h2
    else with_state (setBuffering false) h2
  else h2.

End Progress.

(** ** components/VimeoPlayer: the mute button *)

Module VimeoControls.

Import VimeoPlayer.

Definition handleMuteToggle (c : Component) : Component :=
  if player c then
    if muted c then
      mkComponent (playing c) (volume c) false true (error c)
                  (playbackRate c) (loading c) (duration c) (played c)
                  (player c) (calls c ++ [setVolume_call (volume c)])
    else
      mkComponent (playing c) (volume c) true true (error c)
                  (playbackRate c) (loading c) (duration c) (played c)
                  (player c) (calls c ++ [setVolume_call 0%Q])
  else c.



End VimeoControls.

(** ** lib/api-client: [getVideos] *)

Module ApiMethods.

Import ApiClient.

Definition invalid_format : JsError :=
  AppError_default "Invalid response format from server" "PARSE_ERROR".

Definition unexpected_format : JsError :=
  AppError_default "Unexpected response format from server" "PARSE_ERROR".

Section Methods.

Variable Video : Type.
Variable JSON_parse : string -> option (ApiData Video).

(** [getVideos], from the outcome of [request] on.  The declared result is
    a list of videos; in the string branch the code returns whatever was
    parsed. *)
Definition getVideos (requested : Completion (ApiData Video))
  : Completion (ApiData Video) :=
  match requested with
  | Throw e => Throw e
  | Normal response =>
      match response with
      | DataString s =>
          match JSON_parse s with
          | None => Throw invalid_format
          | Some DataNull => Throw invalid_format
          | Some (DataObject o) =>
              match videos Video o with
              | Some items => Normal (DataArray items)
              | None => Normal (DataObject o)
              end
          | Some parsed => Normal parsed
          end
      | DataObject o =>
          match videos Video o with
          | Some items => Normal (DataArray items)
          | None => Throw unexpected_format
          end
      | DataArray items => Normal (DataArray items)
      | DataNull | DataPrimitive => Throw unexpected_format
      end
  end.

End Methods.

Arguments getVideos {Video} JSON_parse requested.

End ApiMethods.

(** ** lib/error-handler: [formatErrorMessage] *)

Module ErrorHandler.

(** The [switch] on [error.code]; the default is [error.message || '...']. *)
Definition formatErrorMessage (code message : string) : string :=
  if String.eqb code "VALIDATION_ERROR" then
    "Please check your input and try again."
  else if String.eqb code "AUTHENTICATION_ERROR" then
    "Please log in to continue."
  else if String.eqb code "AUTHORIZATION_ERROR" then
    "You don't have permission to perform this action."
  else if String.eqb code "NOT_FOUND_ERROR" then
    "The requested resource was not found."
  else if String.eqb code "NETWORK_ERROR" then
    "Network error. Please check your connection."
  else if truthy message then message
  else "An unexpected error occurred.".

(** [formatErrorMessage] on a thrown [AppError]. *)
Definition shown_message (e : JsError) : option string :=
  match e with
  | AppError message code _ => Some (formatErrorMessage code message)
  | _ => None
  end.

End ErrorHandler.

(** ** hooks/use-api: [useVideosPaginated] *)

Module UseVideosPaginated.

Import ApiClient.

(** [ApiError] without its time stamp; the errors built here carry no
    details. *)
Record ApiError : Type := mkApiError {
  code : string;
  message : string
}.

(** [convertToApiError] of [err instanceof AppError ? err : new AppError(
    err instanceof Error ? err.message : 'Failed to load videos',
    'LOAD_VIDEOS_ERROR')]. *)
Definition caught (err : JsError) : ApiError :=
  match err with
  | AppError m c _ => {| code := c; message := m |}
  | TypeError m | OtherError m => {| code := "LOAD_VIDEOS_ERROR"; message := m |}
  | NonError => {| code := "LOAD_VIDEOS_ERROR"; message := "Failed to load videos" |}
  end.

Section Hook.

Variable Video : Type.

Record State : Type := mkState {
  page : Z;
  hasMore : bool;
  videos : list Video;
  loading : bool;
  error : option ApiError
}.

Definition initial (initialPage : Z) : State :=
  {| page := initialPage; hasMore := true; videos := []; loading := false;
     error := None |}.

(** [loadVideos] up to its [await]. *)
Definition loadVideos_begin (st : State) : State :=
  mkState (page st) (hasMore st) (videos st) true None.

(** [loadVideos(pageNum, append)] from the [await] on; the response is
    read as its type declares it, a list and the [hasNext] flag. *)
Definition loadVideos_end (pageNum : Z) (append : bool)
           (response : Completion (list Video * bool)) (st : State) : State :=
  match response with
  | Normal (data, hasNext) =>
      mkState pageNum hasNext
              (if append then (videos st ++ data)%list else data)
              false (error st)
  | Throw err =>
      mkState (page st) (hasMore st) (videos st) false (Some (caught err))
  end.

(** [loadNextPage]: the page it asks [loadVideos] for, if any. *)
Definition loadNextPage (st : State) : option (Z * bool) :=
  if negb (loading st) && hasMore st then Some ((page st + 1)%Z, true)
  else None.

(** *** Renders and requests in flight

    [loadNextPage] reads [loading], [hasMore] and [page] from the render
    that created it, while the setters of [loadVideos] act on the state
    itself, [setVideos] through its function form.  So the hook is its
    state, the state as the last render saw it, and the requests that
    [loadVideos] awaits, oldest first. *)
Record World : Type := mkWorld {
  state : State;
  rendered : State;
  inflight : list (Z * bool)
}.

(** [loadVideos(pageNum, append)] up to its [await]. *)
Definition loadVideos_call (pageNum : Z) (append : bool) (w : World) : World :=
  {| state := loadVideos_begin (state w);
     rendered := rendered w;
     inflight := (inflight w ++ [(pageNum, append)])%list |}.

(** The first render and its effect, [loadVideos(initialPage, false)]. *)
Definition mount (initialPage : Z) : World :=
  loadVideos_call initialPage false
    {| state := initial initialPage; rendered := initial initialPage;
       inflight := [] |}.

(** The sentinel row comes into view: the observer calls the
    [loadNextPage] of the last render. *)
Definition arrival (w : World) : World :=
  match loadNextPage (rendered w) with
  | Some (pageNum, append) => loadVideos_call pageNum append w
  | None => w
  end.

(** React renders again: the callbacks are rebuilt over the state. *)
Definition rerender (w : World) : World :=
  {| state := state w; rendered := state w; inflight := inflight w |}.

(** The typed reading of what [getVideosPaginated] returned. *)
Definition typed_response (r : Completion (PaginatedResponse Video))
  : option (Completion (list Video * bool)) :=
  match r with
  | Throw e => Some (Throw e)
  | Normal r =>
      match response_data r with
      | DataArray data => Some (Normal (data, hasNext (pagination r)))
      | _ => None
      end
  end.

(** *** A backend that honours [page] and [limit] *)

Variable JSON_parse : string -> option (ApiData Video).
Variable all : list Video.
Variable pageSize : Z.

(** The listing object for one page: the slice of [all] at
    [offset = (page - 1) * limit] and the total. *)
Definition served (pageNum : Z) : ApiData Video :=
  DataObject
    (mkListing
       (Some (firstn (Z.to_nat pageSize)
                     (skipn (Z.to_nat ((pageNum - 1) * pageSize)) all)))
       None (Some (Z.of_nat (List.length all))) None).

(** What the [await] of [loadVideos] yields for [pageNum] against that
    backend. *)
Definition awaited (pageNum : Z) : option (Completion (list Video * bool)) :=
  typed_response
    (getVideosPaginated JSON_parse
       (mkParams (Some pageNum) (Some pageSize) None)
       (Normal (served pageNum))).

(** The oldest request in flight is answered and its [loadVideos] runs to
    the end; nothing happens when none is in flight. *)
Definition answer (w : World) : option World :=
  match inflight w with
  | [] => Some w
  | (pageNum, append) :: rest =>
      match awaited pageNum with
      | Some response =>
          Some {| state := loadVideos_end pageNum append response (state w);
                  rendered := rendered w;
                  inflight := rest |}
      | None => None
      end
  end.

Inductive Event : Type :=
| Arrival      (* the sentinel row comes into view *)
| Answer       (* the oldest request in flight is answered *)
| Rerender.    (* React renders the component again *)

Definition step (w : World) (e : Event) : option World :=
  match e with
  | Arrival => Some (arrival w)
  | Answer => answer w
  | Rerender => Some (rerender w)
  end.

Fixpoint run (events : list Event) (w : World) : option World :=
  match events with
  | [] => Some w
  | e :: events' =>
      match step w e with
      | Some w' => run events' w'
      | None => None
      end
  end.

(** An arrival of the sentinel row whose load is answered and rendered
    before anything else happens. *)
Definition settled_arrival : list Event := [Arrival; Answer; Rerender].

Fixpoint settled_arrivals (times : nat) : list Event :=
  match times with
  | O => []
  | S n => (settled_arrival ++ settled_arrivals n)%list
  end.

(** The first load answered and rendered, then [times] settled arrivals. *)
Definition browse (times : nat) : option World :=
  run ([Answer; Rerender] ++ settled_arrivals times)%list (mount 1).

End Hook.

End UseVideosPaginated.

(** The state of the paginated hook after [j] pages of [pageSize] videos
    out of [all]. *)
Definition pages_loaded (Video : Type) (all : list Video) (pageSize : Z)
           (j : nat) (st : UseVideosPaginated.State Video) : Prop :=
  UseVideosPaginated.page Video st = Z.of_nat j /\
  UseVideosPaginated.videos Video st = firstn (j * Z.to_nat pageSize) all /\
  UseVideosPaginated.hasMore Video st
  = (Z.of_nat j * pageSize <? Z.of_nat (List.length all))%Z /\
  UseVideosPaginated.loading Video st = false /\
  UseVideosPaginated.error Video st = None.

(** The hook at rest: the last render saw the state and no request is in
    flight. *)
Definition at_rest (Video : Type) (w : UseVideosPaginated.World Video) : Prop :=
  UseVideosPaginated.rendered Video w = UseVideosPaginated.state Video w /\
  UseVideosPaginated.inflight Video w = [].

(** ** lib/video-utils: [formatVideoDuration] *)

(** [s.padStart(2, '0')]. *)
Definition padStart2 (s : string) : string :=
  match String.length s with
  | O => "00"
  | S O => "0" ++ s
  | _ => s
  end.

(** [Number.MAX_SAFE_INTEGER]: up to it every whole number is a double. *)
Definition MAX_SAFE_INTEGER : Z := (2 ^ 53 - 1)%Z.

(** [formatVideoDuration] on a whole number of seconds whose magnitude is at
    most [MAX_SAFE_INTEGER]: there the division by 3600 rounds to a double
    with the same floor, so [Math.floor] of a quotient is [Z.div], [%] is
    [Z.rem], and [toString] prints the digits.  Larger doubles are outside
    this definition. *)
Definition formatVideoDuration (seconds : Z) : string :=
  let hours := (seconds / 3600)%Z in
  let minutes := (Z.rem seconds 3600 / 60)%Z in
  let secs := Z.rem seconds 60 in
  if (0 <? hours)%Z then
    ApiClient.Number_toString hours ++ ":"
      ++ padStart2 (ApiClient.Number_toString minutes) ++ ":"
      ++ padStart2 (ApiClient.Number_toString secs)
  else
    ApiClient.Number_toString minutes ++ ":"
      ++ padStart2 (ApiClient.Number_toString secs).

(** ** pages/NewVideoPage: [validateForm] *)

Module NewVideoPage.

(** [s.trim()]. *)
Definition trim (s : string) : string := trimEnd (trimStart s).

Record VideoForm : Type := mkForm {
  title : string;
  description : string;
  video_url : string
}.

Record FormErrors : Type := mkErrors {
  title_error : option string;
  description_error : option string;
  video_url_error : option string
}.

Section Validation.

Variable newURL : string -> option URL.

Definition newErrors (form : VideoForm) : FormErrors :=
  {| title_error :=
       if negb (truthy (trim (title form))) then Some "Title is required"
       else if (String.length (title form) <? 3)%nat
            then Some "Title must be at least 3 characters"
       else if (100 <? String.length (title form))%nat
            then Some "Title must be less than 100 characters"
       else None;
     description_error :=
       if negb (truthy (trim (description form)))
       then Some "Description is required" else None;
     video_url_error :=
       if negb (truthy (trim (video_url form)))
       then Some "Video URL is required"
       else match newURL (video_url form) with
            | Some _ => None
            | None => Some "Please enter a valid URL"
            end |}.

(** [Object.keys(newErrors).length === 0]. *)
Definition validateForm (form : VideoForm) : bool :=
  match newErrors form with
  | {| title_error := None; description_error := None;
       video_url_error := None |} => true
  | _ => false
  end.

(** The [videoData] that [handleSubmit] sends. *)
Definition videoData (form : VideoForm) : VideoForm :=
  {| title := trim (title form);
     description := trim (description form);
     video_url := trim (video_url form) |}.

End Validation.

End NewVideoPage.

(** * Properties *)

(** ** Strings and the matcher *)

Lemma take_length (s : string) : take (String.length s) s = s.
Proof. induction s as [|c s IH]; simpl; [reflexivity | now rewrite IH]. Qed.

Lemma consumed_all (s : string) : consumed s EmptyString = s.
Proof. unfold consumed. simpl. rewrite Nat.sub_0_r. apply take_length. Qed.

Lemma star_greedy_all {A} (p : ascii -> bool) (s : string)
      (k : string -> option A) (v : A) :
  all p s = true -> k EmptyString = Some v -> star_greedy p s k = Some v.
Proof.
  intros Hall Hk. induction s as [|c s IH]; simpl in *.
  - exact Hk.
  - apply andb_true_iff in Hall as [Hc Hs]. rewrite Hc.
    rewrite (IH Hs). reflexivity.
Qed.

Lemma plus_greedy_all {A} (p : ascii -> bool) (s : string)
      (k : string -> option A) (v : A) :
  s <> EmptyString -> all p s = true -> k EmptyString = Some v ->
  plus_greedy p s k = Some v.
Proof.
  intros Hne Hall Hk. destruct s as [|c s]; [congruence|].
  simpl in *. apply andb_true_iff in Hall as [Hc Hs]. rewrite Hc.
  now apply star_greedy_all.
Qed.

(** A trailing group [(C+)] captures a whole non-empty input made of
    characters of the class. *)
Lemma group_plus_captures (p : ascii -> bool) (s : string) :
  s <> EmptyString -> all p s = true ->
  plus_greedy p s (fun s' => Some (Some (consumed s s'))) = Some (Some s).
Proof.
  intros Hne Hall. apply plus_greedy_all; auto. now rewrite consumed_all.
Qed.

Lemma exec_here (r : regex) (s : string) (cap : option string) :
  match_here r s = Some cap -> exec r s = Some cap.
Proof. intros H. destruct s; simpl; now rewrite H. Qed.

Lemma exec_skip (r : regex) (c : ascii) (s : string) :
  match_here r (String c s) = None -> exec r (String c s) = exec r s.
Proof. intros H. simpl exec. now rewrite H. Qed.

(** A pattern that begins with a literal finds nothing in a string that
    does not contain the literal. *)
Lemma exec_literal_absent (l : string) (r : regex) (s : string) :
  includes l s = false -> exec (RSeq (RLit l) r) s = None.
Proof.
  induction s as [|c s IH]; simpl; unfold startsWith, match_here; simpl;
    destruct (strip_prefix l _); simpl; try discriminate; auto.
Qed.

Lemma exec_literals_absent (a b c : string) (r : regex) (s : string) :
  includes a s = false -> includes b s = false -> includes c s = false ->
  exec (RSeq (RAlt (RLit a) (RAlt (RLit b) (RLit c))) r) s = None.
Proof.
  induction s as [|x s IH]; simpl; unfold startsWith, match_here; simpl;
    destruct (strip_prefix a _), (strip_prefix b _), (strip_prefix c _);
    simpl; try discriminate; auto.
Qed.

(** ** Digits *)

Lemma digit_not_other (c d : ascii) :
  is_digit c = true -> is_digit d = false -> Ascii.eqb d c = false.
Proof.
  intros Hc Hd. apply Ascii.eqb_neq. intros ->. congruence.
Qed.

Lemma digit_is_not (c d : ascii) :
  is_digit c = true -> is_digit d = false -> Ascii.eqb c d = false.
Proof.
  intros Hc Hd. apply Ascii.eqb_neq. intros ->. congruence.
Qed.

Lemma digit_not_white (c : ascii) : is_digit c = true -> is_white c = false.
Proof.
  unfold is_digit, is_white, in_range. intros H.
  apply andb_true_iff in H as [H1 H2].
  apply Nat.leb_le in H1. apply Nat.leb_le in H2.
  repeat (apply orb_false_iff; split).
  - apply andb_false_iff. right. apply Nat.leb_gt. lia.
  - apply Nat.eqb_neq. lia.
  - apply Nat.eqb_neq. lia.
Qed.

Lemma includes_digits (c : ascii) (l ds : string) :
  is_digit c = false -> all is_digit ds = true ->
  includes (String c l) ds = false.
Proof.
  intros Hc. induction ds as [|d ds IH]; simpl; intros Hall.
  - reflexivity.
  - apply andb_true_iff in Hall as [Hd Hds].
    unfold startsWith. simpl. rewrite (digit_not_other d c Hd Hc). simpl. auto.
Qed.

Lemma span_digits (ds : string) :
  all is_digit ds = true -> span is_digit ds = (ds, EmptyString).
Proof.
  induction ds as [|d ds IH]; simpl; intros Hall; [reflexivity|].
  apply andb_true_iff in Hall as [Hd Hds]. now rewrite Hd, (IH Hds).
Qed.

Lemma trimEnd_digits (ds : string) :
  all is_digit ds = true -> trimEnd ds = ds.
Proof.
  induction ds as [|d ds IH]; simpl; intros Hall; [reflexivity|].
  apply andb_true_iff in Hall as [Hd Hds].
  now rewrite (digit_not_white d Hd), (IH Hds).
Qed.

(** [Number] reads a non-empty string of digits as a number. *)
Lemma digits_are_a_number (ds : string) :
  ds <> EmptyString -> all is_digit ds = true -> isNaN_Number ds = false.
Proof.
  intros Hne Hall. destruct ds as [|d ds]; [congruence|].
  pose proof Hall as Hall'. simpl in Hall'.
  apply andb_true_iff in Hall' as [Hd Hds].
  unfold isNaN_Number.
  assert (Ht : trimStart (String d ds) = String d ds)
    by (simpl; now rewrite (digit_not_white d Hd)).
  rewrite Ht, (trimEnd_digits _ Hall).
  assert (Hs : strip_sign (String d ds) = String d ds).
  { simpl. rewrite (digit_is_not d "+"%char Hd eq_refl).
    now rewrite (digit_is_not d "-"%char Hd eq_refl). }
  rewrite Hs. unfold unsigned_decimal.
  assert (Hi : String.eqb (String d ds) "Infinity" = false).
  { simpl. now rewrite (digit_is_not d "I"%char Hd eq_refl). }
  rewrite Hi, (span_digits _ Hall). simpl.
  now rewrite orb_true_r.
Qed.

(** ** The regular-expression helpers on the three YouTube shapes *)

Tactic Notation "skip_chars" integer(n) :=
  do n (rewrite exec_skip by reflexivity).

Ltac capture_rest H Hall :=
  apply exec_here; unfold match_here; simpl;
  rewrite (group_plus_captures _ _ H Hall); reflexivity.

Lemma pattern1_watch (X : string) :
  X <> EmptyString -> all id_char X = true ->
  exec youtube_pattern1 (watch_url X) = Some (Some X).
Proof.
  intros H Hall. unfold watch_url, youtube_pattern1. simpl append.
  skip_chars 8. capture_rest H Hall.
Qed.

Lemma pattern1_short (X : string) :
  X <> EmptyString -> all id_char X = true ->
  exec youtube_pattern1 (short_url X) = Some (Some X).
Proof.
  intros H Hall. unfold short_url, youtube_pattern1. simpl append.
  skip_chars 8. capture_rest H Hall.
Qed.

Lemma pattern1_embed (X : string) :
  X <> EmptyString -> all id_char X = true ->
  exec youtube_pattern1 (embed_url X) = Some (Some X).
Proof.
  intros H Hall. unfold embed_url, youtube_pattern1. simpl append.
  skip_chars 8. capture_rest H Hall.
Qed.

Lemma extract_of_pattern1 (url X : string) :
  exec youtube_pattern1 url = Some (Some X) ->
  extractYouTubeVideoId url = Some X /\ getVideoPlatform url = youtube.
Proof.
  intros H. unfold getVideoPlatform, isYouTubeUrl, extractYouTubeVideoId.
  simpl. rewrite H. auto.
Qed.

Lemma vimeo_pattern_digits (ds : string) :
  ds <> EmptyString -> all is_digit ds = true ->
  exec vimeo_pattern (vimeo_url ds) = Some (Some ds).
Proof.
  intros H Hall. unfold vimeo_url, vimeo_pattern. simpl append.
  skip_chars 8. capture_rest H Hall.
Qed.

Lemma no_youtube_in_vimeo_url (ds : string) :
  all is_digit ds = true -> extractYouTubeVideoId (vimeo_url ds) = None.
Proof.
  intros Hall.
  assert (Hy : forall l, includes (String "y" l) (vimeo_url ds) = false).
  { intros l. unfold vimeo_url. simpl append.
    cbn [includes startsWith strip_prefix Ascii.eqb Bool.eqb orb].
    now apply includes_digits. }
  unfold extractYouTubeVideoId, patterns, first_match.
  unfold youtube_pattern1, youtube_pattern2, youtube_pattern3.
  rewrite exec_literals_absent by apply Hy.
  now rewrite !exec_literal_absent by apply Hy.
Qed.

(** A match of one of the patterns always fills its group, so [None] from
    [extractYouTubeVideoId] is [null] and never [undefined]. *)
Lemma star_greedy_image {A} (P : A -> Prop) p s (k : string -> option A) v :
  (forall s' w, k s' = Some w -> P w) -> star_greedy p s k = Some v -> P v.
Proof.
  intros Hk. induction s as [|c s IH]; simpl.
  - apply Hk.
  - destruct (p c); [|apply Hk].
    destruct (star_greedy p s k) eqn:E; simpl.
    + intros [= <-]. now apply IH.
    + apply Hk.
Qed.

Lemma rmatch_image {A} (P : A -> Prop) r :
  forall s cap (k : string -> option string -> option A) v,
    (forall s' c w, k s' c = Some w -> P w) ->
    rmatch r s cap k = Some v -> P v.
Proof.
  induction r as [l|p|p|r1 IH1 r2 IH2|r1 IH1 r2 IH2|r1 IH1];
    intros s cap k v Hk; simpl.
  - destruct (strip_prefix l s); [apply Hk | discriminate].
  - unfold plus_greedy. destruct s as [|c s]; [discriminate|].
    destruct (p c); [|discriminate].
    apply star_greedy_image. intros s' w. apply Hk.
  - apply star_greedy_image. intros s' w. apply Hk.
  - destruct (rmatch r1 s cap k) eqn:E; simpl.
    + intros [= <-]. eapply IH1; eauto.
    + eapply IH2; eauto.
  - apply IH1. intros s' c w. apply IH2. exact Hk.
  - apply IH1. intros s' c w. apply Hk.
Qed.

Lemma exec_image (P : option string -> Prop) r s v :
  (forall s', match_here r s' = Some v -> P v) -> exec r s = Some v -> P v.
Proof.
  intros H. induction s as [|c s IH]; simpl.
  - destruct (match_here r EmptyString) eqn:E; [|discriminate].
    intros [= <-]. eauto.
  - destruct (match_here r (String c s)) eqn:E.
    + intros [= <-]. eauto.
    + exact IH.
Qed.

Lemma rmatch_seq_image {A} (P : A -> Prop) r1 r2 s cap
      (k : string -> option string -> option A) v :
  (forall s' c w, rmatch r2 s' c k = Some w -> P w) ->
  rmatch (RSeq r1 r2) s cap k = Some v -> P v.
Proof. intros H. simpl. now apply rmatch_image. Qed.

Lemma rmatch_group_image {A} (P : A -> Prop) r1 s cap
      (k : string -> option string -> option A) v :
  (forall s' g w, k s' (Some g) = Some w -> P w) ->
  rmatch (RGroup r1) s cap k = Some v -> P v.
Proof.
  intros H. simpl. apply rmatch_image. intros s' c w. apply H.
Qed.

Lemma patterns_always_capture (p : regex) (url : string) (v : option string) :
  In p (vimeo_pattern :: patterns) -> exec p url = Some v -> captured v.
Proof.
  intros Hin. apply (exec_image captured).
  intros s'. unfold match_here. simpl in Hin.
  destruct Hin as [<-|[<-|[<-|[<-|[]]]]];
    repeat (apply (rmatch_seq_image captured); intros ? ? ?);
    apply (rmatch_group_image captured); intros ? g ? [= <-];
    now exists g.
Qed.

(** ** Classification *)

Lemma parseVideoUrl_youtube_watch newURL (url X : string) (u : URL) :
  X <> EmptyString ->
  newURL url = Some u -> hostname u = "youtube.com" -> pathname u = "/watch" ->
  searchParams_get "v" (searchParams u) = Some X ->
  type (parseVideoUrl newURL url) = youtube /\
  videoId (parseVideoUrl newURL url) = Some X.
Proof.
  intros HX Hu Hh Hp Hv. unfold parseVideoUrl, youtube_branch.
  rewrite Hu, Hh, Hp, Hv. destruct X; [congruence|]. simpl. auto.
Qed.

Lemma parseVideoUrl_youtu_be newURL (url X : string) (u : URL) :
  X <> EmptyString ->
  newURL url = Some u -> hostname u = "youtu.be" -> pathname u = "/" ++ X ->
  type (parseVideoUrl newURL url) = youtube /\
  videoId (parseVideoUrl newURL url) = Some X.
Proof.
  intros HX Hu Hh Hp. unfold parseVideoUrl, youtube_branch.
  rewrite Hu, Hh, Hp. destruct X; [congruence|]. simpl. auto.
Qed.

(** [parseVideoUrl] has no case for the [/embed/] path: whatever follows it,
    the address is not classified as YouTube. *)
Lemma parseVideoUrl_embed_path newURL (url X : string) (u : URL) :
  newURL url = Some u -> hostname u = "youtube.com" ->
  pathname u = "/embed/" ++ X ->
  type (parseVideoUrl newURL url) = direct \/
  type (parseVideoUrl newURL url) = unknown.
Proof.
  intros Hu Hh Hp. unfold parseVideoUrl, youtube_branch, vimeo_branch.
  rewrite Hu, Hh, Hp. simpl.
  destruct (hasVideoExtension u); simpl; auto.
Qed.

(** C4 (as amended): for every non-empty X free of [&], [?], [#] and line
    feed, [getVideoPlatform] answers youtube and [extractYouTubeVideoId]
    answers X on the watch, youtu.be and embed addresses of X; and
    [parseVideoUrl] answers youtube with video id X on the watch and
    youtu.be addresses whenever the URL parser hands X over unchanged. *)
Theorem youtube_id_of_nonempty_X
        (newURL : string -> option URL) (X : string) (u1 u2 : URL) :
  X <> EmptyString -> all id_char X = true ->
  newURL (watch_url X) = Some u1 -> hostname u1 = "youtube.com" ->
  pathname u1 = "/watch" -> searchParams_get "v" (searchParams u1) = Some X ->
  newURL (short_url X) = Some u2 -> hostname u2 = "youtu.be" ->
  pathname u2 = "/" ++ X ->
  (forall url, In url [watch_url X; short_url X; embed_url X] ->
     getVideoPlatform url = youtube /\ extractYouTubeVideoId url = Some X) /\
  (forall url, In url [watch_url X; short_url X] ->
     type (parseVideoUrl newURL url) = youtube /\
     videoId (parseVideoUrl newURL url) = Some X).
Proof.
  intros HX Hall Hu1 Hh1 Hp1 Hv1 Hu2 Hh2 Hp2. split.
  - intros url [<-|[<-|[<-|[]]]]; apply and_comm, extract_of_pattern1;
      auto using pattern1_watch, pattern1_short, pattern1_embed.
  - intros url [<-|[<-|[]]].
    + eapply parseVideoUrl_youtube_watch; eauto.
    + eapply parseVideoUrl_youtu_be; eauto.
Qed.

Lemma youtube_id_of_nonempty_X_witness :
  (forall url,
      In url [watch_url "dQw4w9WgXcQ"; short_url "dQw4w9WgXcQ";
              embed_url "dQw4w9WgXcQ"] ->
      getVideoPlatform url = youtube /\
      extractYouTubeVideoId url = Some "dQw4w9WgXcQ") /\
  (forall url,
      In url [watch_url "dQw4w9WgXcQ"; short_url "dQw4w9WgXcQ"] ->
      type (parseVideoUrl URL_parse url) = youtube /\
      videoId (parseVideoUrl URL_parse url) = Some "dQw4w9WgXcQ").
Proof.
  apply (youtube_id_of_nonempty_X URL_parse "dQw4w9WgXcQ"
           (mkURL "youtube.com" "/watch" [("v", "dQw4w9WgXcQ")])
           (mkURL "youtu.be" "/dQw4w9WgXcQ" []));
    solve [reflexivity | discriminate].
Defined.

(** C4, counterexample: the empty X contains none of the excluded
    characters, yet none of its three addresses is classified as YouTube by
    either classifier, and no id is extracted. *)
Lemma empty_X_is_not_youtube :
  all id_char "" = true /\
  (forall url, In url [watch_url ""; short_url ""; embed_url ""] ->
     getVideoPlatform url = direct /\
     extractYouTubeVideoId url = None /\
     type (parseVideoUrl URL_parse url) = unknown).
Proof.
  split; [reflexivity|].
  intros url [<-|[<-|[<-|[]]]]; vm_compute; auto.
Qed.

(** The same gap on a real id: the embed address of a video is unknown to
    [parseVideoUrl] although the regular-expression helper reads its id. *)
Example embed_address_unknown_to_parseVideoUrl :
  parseVideoUrl URL_parse (embed_url "dQw4w9WgXcQ") = unknown_platform /\
  extractYouTubeVideoId (embed_url "dQw4w9WgXcQ") = Some "dQw4w9WgXcQ".
Proof. split; reflexivity. Qed.

(** The reference parser splits every digits address as the classification lemmas assume. *)
Lemma URL_parse_vimeo_digits (ds : string) :
  ds <> EmptyString -> all is_digit ds = true ->
  URL_parse (vimeo_url ds) = Some (mkURL "vimeo.com" ("/" ++ ds) []).
Proof.
  intros Hne Hall. unfold URL_parse, vimeo_url. simpl.
  assert (Hb : forall stop,
             (forall c, is_digit c = true -> stop c = false) ->
             break stop ds = (ds, EmptyString)).
  { intros stop Hstop. clear Hne. induction ds as [|d ds IH]; simpl; auto.
    simpl in Hall. apply andb_true_iff in Hall as [Hd Hds].
    now rewrite (Hstop d Hd), (IH Hds). }
  rewrite Hb; [reflexivity|].
  intros c Hc. unfold one_of. simpl. unfold startsWith. simpl.
  rewrite (digit_is_not c "?"%char Hc eq_refl).
  now rewrite (digit_is_not c "#"%char Hc eq_refl).
Qed.

(** A path segment that [Number] does not read is never a Vimeo id: the
    address is direct when it ends in a video extension and unknown
    otherwise. *)
Lemma vimeo_non_numeric_segment newURL (url segment : string) (u : URL) :
  newURL url = Some u -> hostname u = "vimeo.com" ->
  pathname u = "/" ++ segment -> isNaN_Number segment = true ->
  type (parseVideoUrl newURL url)
  = if hasVideoExtension u then direct else unknown.
Proof.
  intros Hu Hh Hp Hn. unfold parseVideoUrl, youtube_branch, vimeo_branch.
  rewrite Hu, Hh, Hp. simpl. rewrite Hn, andb_false_r.
  now destruct (hasVideoExtension u).
Qed.

(** A non-empty path segment that [Number] reads is the Vimeo id. *)
Lemma vimeo_numeric_segment newURL (url segment : string) (u : URL) :
  newURL url = Some u -> hostname u = "vimeo.com" ->
  pathname u = "/" ++ segment ->
  segment <> EmptyString -> isNaN_Number segment = false ->
  parseVideoUrl newURL url
  = {| type := vimeo;
       videoId := Some segment;
       embedUrl := Some ("https://player.vimeo.com/video/" ++ segment);
       thumbnailUrl := Some ("https://vumbnail.com/" ++ segment ++ ".jpg") |}.
Proof.
  intros Hu Hh Hp Hne Hn. unfold parseVideoUrl, youtube_branch, vimeo_branch.
  rewrite Hu, Hh, Hp. simpl. rewrite Hn.
  destruct segment; [congruence|]. reflexivity.
Qed.

(** C5 (as amended): an address [https://vimeo.com/<segment>] that the URL
    parser splits into its host and path is classified by its segment.  A
    non-empty run of digits makes it vimeo with the digits as its id, for
    [parseVideoUrl] and for the regular-expression helpers; so does, for
    [parseVideoUrl], every non-empty segment that [Number] reads.  A
    segment that [Number] does not read makes it direct when the path ends
    in a video extension and unknown otherwise; for the segment [abc] that
    is unknown, where [getVideoPlatform], which has no unknown kind,
    answers direct. *)
Theorem vimeo_segment_classified
        (newURL : string -> option URL) (segment : string) (u : URL) :
  newURL (vimeo_url segment) = Some u ->
  hostname u = "vimeo.com" -> pathname u = "/" ++ segment ->
  (segment <> EmptyString -> all is_digit segment = true ->
     parseVideoUrl newURL (vimeo_url segment)
       = {| type := vimeo;
            videoId := Some segment;
            embedUrl := Some ("https://player.vimeo.com/video/" ++ segment);
            thumbnailUrl := Some ("https://vumbnail.com/" ++ segment ++ ".jpg") |} /\
     getVideoPlatform (vimeo_url segment) = vimeo /\
     extractVimeoVideoId (vimeo_url segment) = Some segment) /\
  (segment <> EmptyString -> isNaN_Number segment = false ->
     parseVideoUrl newURL (vimeo_url segment)
       = {| type := vimeo;
            videoId := Some segment;
            embedUrl := Some ("https://player.vimeo.com/video/" ++ segment);
            thumbnailUrl := Some ("https://vumbnail.com/" ++ segment ++ ".jpg") |}) /\
  (isNaN_Number segment = true ->
     type (parseVideoUrl newURL (vimeo_url segment))
     = if hasVideoExtension u then direct else unknown) /\
  (segment = "abc" ->
     type (parseVideoUrl newURL (vimeo_url segment)) = unknown /\
     getVideoPlatform (vimeo_url segment) = direct).
Proof.
  intros Hu Hh Hp. split; [|split; [|split]].
  - intros Hne Hall. split; [|split].
    + eapply vimeo_numeric_segment; eauto using digits_are_a_number.
    + unfold getVideoPlatform, isYouTubeUrl, isVimeoUrl, test.
      now rewrite (no_youtube_in_vimeo_url segment Hall),
                  (vimeo_pattern_digits segment Hne Hall).
    + unfold extractVimeoVideoId, match1.
      now rewrite (vimeo_pattern_digits segment Hne Hall).
  - intros Hne Hn. eapply vimeo_numeric_segment; eauto.
  - intros Hn. eapply vimeo_non_numeric_segment; eauto.
  - intros ->. split; [|reflexivity].
    rewrite (vimeo_non_numeric_segment newURL _ "abc" u Hu Hh Hp eq_refl).
    unfold hasVideoExtension. now rewrite Hp.
Qed.

(** The three kinds on concrete addresses: digits, a segment that is no
    number, and such a segment ending in a video extension. *)
Lemma vimeo_segment_classified_witness :
  (parseVideoUrl URL_parse (vimeo_url "76979871")
     = {| type := vimeo;
          videoId := Some "76979871";
          embedUrl := Some "https://player.vimeo.com/video/76979871";
          thumbnailUrl := Some "https://vumbnail.com/76979871.jpg" |} /\
   getVideoPlatform (vimeo_url "76979871") = vimeo /\
   extractVimeoVideoId (vimeo_url "76979871") = Some "76979871") /\
  (type (parseVideoUrl URL_parse (vimeo_url "abc")) = unknown /\
   getVideoPlatform (vimeo_url "abc") = direct) /\
  type (parseVideoUrl URL_parse (vimeo_url "abc.mp4")) = direct /\
  type (parseVideoUrl URL_parse (vimeo_url "0x1F")) = vimeo.
Proof.
  pose proof (vimeo_segment_classified URL_parse "76979871"
                (mkURL "vimeo.com" "/76979871" []) eq_refl eq_refl eq_refl)
    as (Hdigits & _).
  pose proof (vimeo_segment_classified URL_parse "abc"
                (mkURL "vimeo.com" "/abc" []) eq_refl eq_refl eq_refl)
    as (_ & _ & _ & Habc).
  pose proof (vimeo_segment_classified URL_parse "abc.mp4"
                (mkURL "vimeo.com" "/abc.mp4" []) eq_refl eq_refl eq_refl)
    as (_ & _ & Hfile & _).
  pose proof (vimeo_segment_classified URL_parse "0x1F"
                (mkURL "vimeo.com" "/0x1F" []) eq_refl eq_refl eq_refl)
    as (_ & Hhex & _).
  split; [|split; [|split]].
  - apply Hdigits; [discriminate|reflexivity].
  - now apply Habc.
  - exact (Hfile eq_refl).
  - now rewrite Hhex by (discriminate || reflexivity).
Defined.

(** C5, counterexample: segments that are not runs of digits and are not
    classified unknown.  [abc.mp4] is no number for [Number], and
    [parseVideoUrl] answers direct; [1e3] is a number for [Number], and
    [parseVideoUrl] answers vimeo with [1e3] as the id; and for [abc]
    itself [getVideoPlatform] answers direct. *)
Lemma non_numeric_segment_not_unknown :
  (all is_digit "abc.mp4" = false /\ isNaN_Number "abc.mp4" = true /\
   type (parseVideoUrl URL_parse "https://vimeo.com/abc.mp4") = direct) /\
  (all is_digit "1e3" = false /\
   type (parseVideoUrl URL_parse "https://vimeo.com/1e3") = vimeo /\
   videoId (parseVideoUrl URL_parse "https://vimeo.com/1e3") = Some "1e3") /\
  getVideoPlatform "https://vimeo.com/abc" = direct.
Proof. repeat split. Qed.

(** C6: when parsing the input as a URL throws, [parseVideoUrl] returns the
    classification of kind unknown with no video id, embed URL or thumbnail
    URL. *)
Theorem parseVideoUrl_malformed (newURL : string -> option URL) (url : string) :
  newURL url = None ->
  parseVideoUrl newURL url
    = {| type := unknown; videoId := None; embedUrl := None;
         thumbnailUrl := None |}.
Proof. intros H. unfold parseVideoUrl. now rewrite H. Qed.

Lemma parseVideoUrl_malformed_witness :
  parseVideoUrl URL_parse "not a url"
    = {| type := unknown; videoId := None; embedUrl := None;
         thumbnailUrl := None |}.
Proof. apply (parseVideoUrl_malformed URL_parse "not a url"). reflexivity. Defined.

(** C10: [getVideoPlatform] answers youtube, vimeo or direct on every
    string, never unknown, and answers direct whenever none of the YouTube
    patterns and not the Vimeo pattern matches. *)
Theorem getVideoPlatform_total (url : string) :
  (getVideoPlatform url = youtube \/ getVideoPlatform url = vimeo \/
   getVideoPlatform url = direct) /\
  getVideoPlatform url <> unknown /\
  ((forall p, In p patterns -> exec p url = None) ->
   exec vimeo_pattern url = None ->
   getVideoPlatform url = direct).
Proof.
  unfold getVideoPlatform.
  repeat split.
  - destruct (isYouTubeUrl url), (isVimeoUrl url); auto.
  - destruct (isYouTubeUrl url), (isVimeoUrl url); discriminate.
  - intros Hy Hv. unfold isYouTubeUrl, extractYouTubeVideoId, isVimeoUrl, test.
    rewrite Hv. unfold patterns in *. simpl.
    now rewrite !Hy by (simpl; auto).
Qed.

Lemma getVideoPlatform_total_witness :
  getVideoPlatform "" = direct /\
  getVideoPlatform "not a url" = direct /\
  getVideoPlatform "https://example.com/lecture" = direct.
Proof.
  split; [|split].
  - apply (getVideoPlatform_total "");
      [intros p [<-|[<-|[<-|[]]]]|]; reflexivity.
  - apply (getVideoPlatform_total "not a url");
      [intros p [<-|[<-|[<-|[]]]]|]; reflexivity.
  - apply (getVideoPlatform_total "https://example.com/lecture");
      [intros p [<-|[<-|[<-|[]]]]|]; reflexivity.
Defined.

(** ** Thumbnails *)

Lemma dataUri_not_empty (svg : string) : dataUri svg <> EmptyString.
Proof. unfold dataUri. generalize (btoa svg). intros x. discriminate. Qed.

Lemma dispatch_never_empty (c : Capture) (e : VideoEvent) :
  never_empty (promise c) -> never_empty (promise (dispatch c e)).
Proof.
  unfold never_empty. intros H v.
  destruct e as [d s|[|err|payload]|]; simpl; destruct (promise c) eqn:E;
    simpl; try (intros [= <-]); try discriminate; eauto using dataUri_not_empty.
Qed.

Lemma fold_dispatch_never_empty (events : list VideoEvent) (c : Capture) :
  never_empty (promise c) ->
  never_empty (promise (fold_left dispatch events c)).
Proof.
  revert c. induction events as [|e events IH]; intros c H; simpl; auto.
  apply IH. now apply dispatch_never_empty.
Qed.

(** A settled promise ignores every later event. *)
Lemma fold_dispatch_settled (events : list VideoEvent) (c : Capture) :
  promise c <> Pending ->
  promise (fold_left dispatch events c) = promise c.
Proof.
  revert c. induction events as [|e events IH]; intros c H; simpl; auto.
  assert (He : promise (dispatch c e) = promise c).
  { destruct e as [d s|cv|]; simpl; destruct (promise c); simpl; congruence. }
  rewrite IH; congruence.
Qed.

(** Metadata events leave the promise pending. *)
Lemma fold_dispatch_metadata (events : list VideoEvent) (c : Capture) :
  forallb is_metadata events = true ->
  promise (fold_left dispatch events c) = promise c.
Proof.
  revert c. induction events as [|e events IH]; intros c H; simpl in *; auto.
  apply andb_true_iff in H as [He Hes].
  destruct e; try discriminate. now rewrite IH.
Qed.

(** The first event that is not metadata settles the capture. *)
Lemma capture_settles (pre post : list VideoEvent) (e : VideoEvent) (t : Q) :
  forallb is_metadata pre = true -> is_metadata e = false ->
  promise (fold_left dispatch (pre ++ e :: post)
                     {| promise := Pending; currentTime := t |})
  = match e with
    | Seeked NoContext => Rejected (OtherError "Could not get canvas context")
    | Seeked (CanvasThrows err) => Rejected err
    | Seeked (DataUrl payload) => Resolved ("data:" ++ payload)
    | _ => Resolved (dataUri (videoCardSvg 8))
    end.
Proof.
  intros Hpre He. rewrite fold_left_app. simpl.
  set (c := fold_left dispatch pre _).
  assert (Hc : promise c = Pending)
    by (subst c; now rewrite fold_dispatch_metadata).
  rewrite fold_dispatch_settled.
  - destruct e as [d s|[|err|payload]|]; try discriminate; simpl;
      now rewrite Hc.
  - destruct e as [d s|[|err|payload]|]; try discriminate; simpl;
      rewrite Hc; discriminate.
Qed.

Lemma getVideoThumbnail_not_empty newURL (videoUrl : string) :
  getVideoThumbnail newURL videoUrl <> EmptyString.
Proof.
  unfold getVideoThumbnail.
  destruct (or_empty (thumbnailUrl (parseVideoUrl newURL videoUrl))) eqn:E;
    simpl; [|discriminate].
  destruct (type _); apply dataUri_not_empty.
Qed.

Lemma generateVideoThumbnail_never_empty newURL host videoUrl events :
  never_empty (generateVideoThumbnail newURL host videoUrl events).
Proof.
  unfold generateVideoThumbnail.
  destruct (type _); try (intros v; discriminate).
  destruct (newURL videoUrl) as [u|].
  - destruct (isExternalDomain host u).
    + intros v [= <-]. apply dataUri_not_empty.
    + apply fold_dispatch_never_empty. intros v; discriminate.
  - intros v [= <-]. apply dataUri_not_empty.
Qed.

Lemma dispatch_data_uri (c : Capture) (e : VideoEvent) :
  resolves_to_data_uri (promise c) ->
  resolves_to_data_uri (promise (dispatch c e)).
Proof.
  unfold resolves_to_data_uri. intros H v.
  destruct e as [d s|[|err|payload]|]; simpl; destruct (promise c) eqn:E;
    simpl; try (intros [= <-]); try discriminate; auto.
Qed.

Lemma fold_dispatch_data_uri (events : list VideoEvent) (c : Capture) :
  resolves_to_data_uri (promise c) ->
  resolves_to_data_uri (promise (fold_left dispatch events c)).
Proof.
  revert c. induction events as [|e events IH]; intros c H; simpl; auto.
  apply IH. now apply dispatch_data_uri.
Qed.

Lemma generateVideoThumbnail_data_uri newURL host videoUrl events :
  resolves_to_data_uri (generateVideoThumbnail newURL host videoUrl events).
Proof.
  unfold generateVideoThumbnail.
  destruct (type _); try (intros v; discriminate).
  destruct (newURL videoUrl) as [u|].
  - destruct (isExternalDomain host u).
    + now intros v [= <-].
    + apply fold_dispatch_data_uri. intros v; discriminate.
  - now intros v [= <-].
Qed.

(** C1 (as amended): [generateVideoThumbnail] rejects every input that is
    not classified as a direct file, and [VideoThumbnail] shows
    [getVideoThumbnail] for those.  Whenever the promise resolves, the
    value is a non-empty [data:] URI: the placeholder at once for a direct
    file on an external domain; for a local file the promise stays pending
    through metadata events, and the first other event settles it, to the
    placeholder when it is the element's error event and to the captured
    frame when it is a seek whose canvas delivered one.  For a direct file
    [VideoThumbnail] shows the resolved value and turns every rejection
    into the placeholder, so the thumbnail reference is non-empty for
    every input that is not direct and, for a direct one, as soon as the
    promise has settled. *)
Theorem thumbnail_resolution
        (newURL : string -> option URL) (host videoUrl : string)
        (events : list VideoEvent) :
  let generated := generateVideoThumbnail newURL host videoUrl events in
  let shown := VideoThumbnail_thumbnailUrl newURL host videoUrl events in
  (type (parseVideoUrl newURL videoUrl) <> direct ->
     generated = Rejected (OtherError "Not a direct video file") /\
     shown = getVideoThumbnail newURL videoUrl) /\
  never_empty generated /\
  resolves_to_data_uri generated /\
  (forall u, type (parseVideoUrl newURL videoUrl) = direct ->
     newURL videoUrl = Some u -> isExternalDomain host u = true ->
     generated = Resolved (dataUri (videoCardSvg 10))) /\
  (forall u, type (parseVideoUrl newURL videoUrl) = direct ->
     newURL videoUrl = Some u -> isExternalDomain host u = false ->
     forallb is_metadata events = true ->
     generated = Pending) /\
  (forall u pre post, type (parseVideoUrl newURL videoUrl) = direct ->
     newURL videoUrl = Some u -> isExternalDomain host u = false ->
     events = (pre ++ ErrorEvent :: post)%list ->
     forallb is_metadata pre = true ->
     generated = Resolved (dataUri (videoCardSvg 8))) /\
  (forall u pre payload post, type (parseVideoUrl newURL videoUrl) = direct ->
     newURL videoUrl = Some u -> isExternalDomain host u = false ->
     events = (pre ++ Seeked (DataUrl payload) :: post)%list ->
     forallb is_metadata pre = true ->
     generated = Resolved ("data:" ++ payload)) /\
  (forall v, type (parseVideoUrl newURL videoUrl) = direct ->
     generated = Resolved v -> shown = v) /\
  (forall reason, type (parseVideoUrl newURL videoUrl) = direct ->
     generated = Rejected reason -> shown = dataUri (videoCardSvg 12)) /\
  (generated <> Pending -> shown <> EmptyString).
Proof.
  intros generated shown.
  pose proof (generateVideoThumbnail_never_empty newURL host videoUrl events)
    as Hne.
  pose proof (generateVideoThumbnail_data_uri newURL host videoUrl events)
    as Hdu.
  fold generated in Hne, Hdu.
  split; [|split; [exact Hne|split; [exact Hdu|]]].
  - intros Ht. subst generated shown.
    unfold VideoThumbnail_thumbnailUrl, generateVideoThumbnail.
    destruct (type (parseVideoUrl newURL videoUrl)); auto; congruence.
  - assert (Hlocal : forall u,
               type (parseVideoUrl newURL videoUrl) = direct ->
               newURL videoUrl = Some u -> isExternalDomain host u = false ->
               generated
               = promise (fold_left dispatch events
                                    {| promise := Pending; currentTime := 0 |})).
    { intros u Ht Hu Hx. subst generated. unfold generateVideoThumbnail.
      now rewrite Ht, Hu, Hx. }
    split; [|split; [|split; [|split; [|split; [|split]]]]].
    + intros u Ht Hu Hx. subst generated. unfold generateVideoThumbnail.
      now rewrite Ht, Hu, Hx.
    + intros u Ht Hu Hx Hev. rewrite (Hlocal u Ht Hu Hx).
      now rewrite fold_dispatch_metadata.
    + intros u pre post Ht Hu Hx -> Hpre. rewrite (Hlocal u Ht Hu Hx).
      now rewrite capture_settles.
    + intros u pre payload post Ht Hu Hx -> Hpre. rewrite (Hlocal u Ht Hu Hx).
      now rewrite capture_settles.
    + intros v Ht Hg. subst shown. unfold VideoThumbnail_thumbnailUrl.
      fold generated. now rewrite Ht, Hg.
    + intros reason Ht Hg. subst shown. unfold VideoThumbnail_thumbnailUrl.
      fold generated. now rewrite Ht, Hg.
    + intros Hp. subst shown. unfold VideoThumbnail_thumbnailUrl.
      fold generated.
      destruct (type (parseVideoUrl newURL videoUrl));
        try apply getVideoThumbnail_not_empty.
      destruct generated as [|v|reason] eqn:Hg.
      * congruence.
      * now apply Hne.
      * apply dataUri_not_empty.
Qed.

(** A clip served by the page's own host: the frame the canvas delivers is
    what the promise resolves to and what [VideoThumbnail] shows; a canvas
    that throws is shown as the placeholder; and a YouTube address is
    rejected and shown through [getVideoThumbnail]. *)
Lemma thumbnail_resolution_witness :
  (generateVideoThumbnail URL_parse "localhost" "http://localhost/clip.mp4"
      [Loadedmetadata 30 true; Seeked (DataUrl "image/jpeg;base64,/9j/4AAQ")]
   = Resolved "data:image/jpeg;base64,/9j/4AAQ" /\
   VideoThumbnail_thumbnailUrl URL_parse "localhost" "http://localhost/clip.mp4"
      [Loadedmetadata 30 true; Seeked (DataUrl "image/jpeg;base64,/9j/4AAQ")]
   = "data:image/jpeg;base64,/9j/4AAQ") /\
  generateVideoThumbnail URL_parse "localhost" "http://localhost/clip.mp4"
      [Loadedmetadata 30 true; ErrorEvent; Seeked (DataUrl "image/png;base64,iVBOR")]
   = Resolved (dataUri (videoCardSvg 8)) /\
  VideoThumbnail_thumbnailUrl URL_parse "localhost" "http://localhost/clip.mp4"
      [Loadedmetadata 30 true; Seeked (CanvasThrows (OtherError "SecurityError"))]
   = dataUri (videoCardSvg 12) /\
  generateVideoThumbnail URL_parse "localhost" "https://youtu.be/dQw4w9WgXcQ" []
   = Rejected (OtherError "Not a direct video file").
Proof.
  pose proof (thumbnail_resolution URL_parse "localhost"
                "http://localhost/clip.mp4"
                [Loadedmetadata 30 true;
                 Seeked (DataUrl "image/jpeg;base64,/9j/4AAQ")])
    as (_ & _ & _ & _ & _ & _ & Hframe & Hshown & _ & _).
  pose proof (thumbnail_resolution URL_parse "localhost"
                "http://localhost/clip.mp4"
                [Loadedmetadata 30 true; ErrorEvent;
                 Seeked (DataUrl "image/png;base64,iVBOR")])
    as (_ & _ & _ & _ & _ & Herror & _).
  pose proof (thumbnail_resolution URL_parse "localhost"
                "http://localhost/clip.mp4"
                [Loadedmetadata 30 true;
                 Seeked (CanvasThrows (OtherError "SecurityError"))])
    as (_ & _ & _ & _ & _ & _ & _ & _ & Hcatch & _).
  pose proof (thumbnail_resolution URL_parse "localhost"
                "https://youtu.be/dQw4w9WgXcQ" [])
    as (Hguard & _).
  split; [|split; [|split]].
  - assert (Hg := Hframe (mkURL "localhost" "/clip.mp4" [])
                         [Loadedmetadata 30 true] "image/jpeg;base64,/9j/4AAQ"
                         [] eq_refl eq_refl eq_refl eq_refl eq_refl).
    split; [exact Hg|]. exact (Hshown _ eq_refl Hg).
  - exact (Herror (mkURL "localhost" "/clip.mp4" [])
                  [Loadedmetadata 30 true]
                  [Seeked (DataUrl "image/png;base64,iVBOR")]
                  eq_refl eq_refl eq_refl eq_refl eq_refl).
  - exact (Hcatch (OtherError "SecurityError") eq_refl eq_refl).
  - apply Hguard. discriminate.
Defined.

(** The three ways the promise resolves, on concrete files. *)
Example generateVideoThumbnail_resolves :
  generateVideoThumbnail URL_parse "localhost" "https://cdn.example.com/a.mp4" []
    = Resolved (dataUri (videoCardSvg 10)) /\
  generateVideoThumbnail URL_parse "localhost" "http://localhost/clip.mp4"
      [Loadedmetadata 30 true; ErrorEvent]
    = Resolved (dataUri (videoCardSvg 8)) /\
  generateVideoThumbnail URL_parse "localhost" "http://localhost/clip.mp4"
      [Loadedmetadata 30 true; Seeked (DataUrl "image/jpeg;base64,/9j/4AAQ")]
    = Resolved "data:image/jpeg;base64,/9j/4AAQ" /\
  generateVideoThumbnail URL_parse "localhost" "http://localhost/clip.mp4"
      [Loadedmetadata 30 false]
    = Pending.
Proof. repeat split. Qed.

(** C1, counterexample: a malformed URL and a platform URL make
    [generateVideoThumbnail] reject, and so does a canvas failure while
    capturing a local file. *)
Lemma generateVideoThumbnail_rejects :
  generateVideoThumbnail URL_parse "localhost" "not a url" []
    = Rejected (OtherError "Not a direct video file") /\
  generateVideoThumbnail URL_parse "localhost" "https://vimeo.com/76979871" []
    = Rejected (OtherError "Not a direct video file") /\
  generateVideoThumbnail URL_parse "localhost" "http://localhost/clip.mp4"
      [Loadedmetadata 30 true; Seeked (CanvasThrows (OtherError "SecurityError"))]
    = Rejected (OtherError "SecurityError") /\
  generateVideoThumbnail URL_parse "localhost" "http://localhost/clip.mp4"
      [Loadedmetadata 30 true; Seeked NoContext]
    = Rejected (OtherError "Could not get canvas context").
Proof. repeat split. Qed.

(** ** The player hook *)

Section PlayerProperties.

Import UseVideoPlayer.

Lemma Qlt_bool_iff (a b : Q) : Qlt_bool a b = true <-> (a < b)%Q.
Proof.
  unfold Qlt_bool. rewrite negb_true_iff.
  split; intros H.
  - apply Qnot_le_lt. intros Hle. apply Qle_bool_iff in Hle. congruence.
  - destruct (Qle_bool b a) eqn:E; auto.
    apply Qle_bool_iff in E. exfalso. now apply (Qlt_not_le a b).
Qed.

(** C7: the volume handler of the hook, and the one of the Vimeo component,
    leave [muted] set when called with volume 0, and clear it when called
    with a positive volume on a muted player. *)
Theorem volume_mute_coupling
        (h : Hook) (c : VimeoPlayer.Component) (newVolume : Q) (rest : list Q) :
  (exists h', handleVolumeChange (newVolume :: rest) h = Some h' /\
     ((newVolume == 0)%Q -> muted (state h') = true) /\
     ((0 < newVolume)%Q -> muted (state h) = true ->
      muted (state h') = false)) /\
  (exists c', VimeoPlayer.handleVolumeChange (newVolume :: rest) c = Some c' /\
     ((newVolume == 0)%Q -> VimeoPlayer.muted c' = true) /\
     ((0 < newVolume)%Q -> VimeoPlayer.muted c = true ->
      VimeoPlayer.muted c' = false)).
Proof.
  assert (Hz : (newVolume == 0)%Q -> Qeq_bool newVolume 0 = true)
    by (intros E; now apply Qeq_bool_iff).
  assert (Hp : (0 < newVolume)%Q -> Qeq_bool newVolume 0 = false).
  { intros L. destruct (Qeq_bool newVolume 0) eqn:E; auto.
    apply Qeq_bool_iff in E. rewrite E in L. now apply Qlt_irrefl in L. }
  split; eexists; (split; [reflexivity|]); split.
  - intros E. now rewrite (Hz E).
  - intros L M. now rewrite (Hp L), M.
  - intros E. simpl. now rewrite (Hz E).
  - intros L M. simpl. now rewrite (Hp L), M.
Qed.

Lemma volume_mute_coupling_witness :
  (exists h', handleVolumeChange [0%Q] (mount true) = Some h' /\
              muted (state h') = true) /\
  (exists h', handleVolumeChange [(5 # 10)%Q] (mount true) = Some h' /\
              muted (state h') = false) /\
  (exists c', VimeoPlayer.handleVolumeChange [(5 # 10)%Q] ready_vimeo = Some c' /\
              VimeoPlayer.muted c' = false).
Proof.
  split; [|split].
  - destruct (volume_mute_coupling (mount true) ready_vimeo 0%Q [])
      as [[h' [E [Hz _]]] _].
    exists h'. split; [exact E | apply Hz; reflexivity].
  - destruct (volume_mute_coupling (mount true) ready_vimeo (5 # 10)%Q [])
      as [[h' [E [_ Hp]]] _].
    exists h'. split; [exact E | apply Hp; reflexivity].
  - destruct (volume_mute_coupling (mount true) ready_vimeo (5 # 10)%Q [])
      as [_ [c' [E [_ Hp]]]].
    exists c'. split; [exact E | apply Hp; reflexivity].
Defined.

(** C3 (as amended): with a player attached and a positive known duration,
    the seek handler forwards the product of the fraction and the duration;
    that time lies between 0 and the duration for a fraction in [0,1], is
    negative for a negative fraction and exceeds the duration for a fraction
    above 1. *)
Theorem handleSeek_forwards_product (h : Hook) (seekTo : Q) (rest : list Q) :
  playerRef h = true -> (0 < duration (state h))%Q ->
  exists h',
    handleSeek (seekTo :: rest) h = Some h' /\
    calls h' = (calls h ++ [seekTo_seconds (seekTo * duration (state h))%Q])%list /\
    ((0 <= seekTo)%Q -> (seekTo <= 1)%Q ->
       (0 <= seekTo * duration (state h))%Q /\
       (seekTo * duration (state h) <= duration (state h))%Q) /\
    ((seekTo < 0)%Q -> (seekTo * duration (state h) < 0)%Q) /\
    ((1 < seekTo)%Q -> (duration (state h) < seekTo * duration (state h))%Q).
Proof.
  intros Hp Hd. unfold handleSeek. simpl.
  rewrite Hp. rewrite (proj2 (Qlt_bool_iff _ _) Hd). simpl.
  eexists. split; [reflexivity|]. split; [reflexivity|].
  set (d := duration (state h)) in *.
  split; [intros Hlo Hhi; split | split].
  - apply Qmult_le_0_compat; auto. now apply Qlt_le_weak.
  - setoid_replace d with (1 * d)%Q at 2 by ring.
    apply Qmult_le_compat_r; auto. now apply Qlt_le_weak.
  - intros Hneg.
    setoid_replace 0%Q with (0 * d)%Q by ring.
    now apply Qmult_lt_compat_r.
  - intros Hhi.
    setoid_replace d with (1 * d)%Q at 1 by ring.
    now apply Qmult_lt_compat_r.
Qed.

Lemma handleSeek_forwards_product_witness :
  exists h',
    handleSeek [(1 # 2)%Q] (ready_hook 100) = Some h' /\
    calls h' = [seekTo_seconds ((1 # 2) * 100)%Q] /\
    (0 <= (1 # 2) * 100)%Q /\ ((1 # 2) * 100 <= 100)%Q.
Proof.
  destruct (handleSeek_forwards_product (ready_hook 100) (1 # 2)%Q [])
    as [h' [E [C [Hin _]]]]; [reflexivity | reflexivity |].
  exists h'. split; [exact E|]. split; [exact C|].
  apply Hin; discriminate.
Defined.

(** C3, counterexample: the fractions -0.2 and 1.3 on a 100 second video are
    forwarded as -20 and 130 seconds. *)
Lemma handleSeek_does_not_clamp :
  option_map calls (handleSeek [(- (2 # 10))%Q] (ready_hook 100))
    = Some [seekTo_seconds (- (2 # 10) * 100)%Q] /\
  (- (2 # 10) * 100 < 0)%Q /\
  option_map calls (handleSeek [(13 # 10)%Q] (ready_hook 100))
    = Some [seekTo_seconds ((13 # 10) * 100)%Q] /\
  (100 < (13 # 10) * 100)%Q.
Proof. repeat split. Qed.

(** The arrow keys, by contrast, clamp the time they compute. *)
Lemma arrow_keys_clamp (h : Hook) (currentTime : Q) :
  (0 <= Qmax (currentTime - 10) 0)%Q /\
  (Qmin (currentTime + 10) (duration (state h)) <= duration (state h))%Q.
Proof. split; [apply Q.le_max_r | apply Q.le_min_r]. Qed.

(** *** The controls-hide timer *)

Lemma single_timer_mount (player : bool) : single_timer (mount player).
Proof. split; simpl; auto. Qed.

Lemma single_timer_click (h : Hook) :
  single_timer h -> single_timer (handleVideoClick h).
Proof.
  intros [Hn Hp]. unfold handleVideoClick, single_timer.
  unfold arm_controls_timeout, clear_controls_timeout. simpl.
  destruct Hp as [Hp|[t [Hp [Hr Ht]]]].
  - destruct (controlsTimeoutRef h) as [id|]; [destruct (Nat.eqb id 0)|];
      simpl; rewrite Hp; simpl; (split; [auto|right; eexists; simpl; eauto]).
  - rewrite Hr. apply Nat.eqb_neq in Ht. rewrite Ht. simpl.
    rewrite Hp. simpl. rewrite Nat.eqb_refl. simpl.
    split; [auto|right; eexists; simpl; eauto].
Qed.

Lemma single_timer_wait (ms : Z) (h : Hook) :
  single_timer h -> single_timer (wait ms h).
Proof.
  intros [Hn Hp]. unfold wait, single_timer. simpl. split; auto.
  destruct Hp as [Hp|[t [Hp [Hr Ht]]]]; rewrite Hp; simpl; auto.
  destruct (due _ t); simpl; auto. right. eauto.
Qed.

(** Clicks, play/pause and the passing of time never leave two pending
    hide timers. *)
Lemma clicks_keep_one_timer (trace : list Step) (h : Hook) :
  (forall s, In s trace -> is_load s = false) ->
  single_timer h -> single_timer (run trace h).
Proof.
  revert h. induction trace as [|s trace IH]; intros h Hs Hi; simpl; auto.
  apply IH; [intros; apply Hs; simpl; auto|].
  assert (Hl := Hs s (or_introl eq_refl)).
  destruct s; simpl; try discriminate;
    auto using single_timer_click, single_timer_wait.
Qed.

Corollary clicks_from_mount (trace : list Step) (player : bool) :
  (forall s, In s trace -> is_load s = false) ->
  (List.length (pending (runtime (run trace (mount player)))) <= 1)%nat.
Proof.
  intros Hs.
  destruct (clicks_keep_one_timer trace (mount player) Hs
              (single_timer_mount player)) as [_ [->|[t [-> _]]]];
    simpl; lia.
Qed.

(** [handleLoad] arms a timer and cancels none. *)
Lemma handleLoad_cancels_nothing (data : option Q) (h : Hook) :
  pending (runtime (handleLoad data h))
  = (pending (runtime h)
     ++ [{| timer_id := next_id (runtime h);
            fires_at := clock (runtime h) + 3000 |}])%list.
Proof.
  unfold handleLoad, arm_controls_timeout. simpl.
  destruct data as [d|]; [destruct (Qeq_bool d 0)|]; reflexivity.
Qed.

(** C2, at the failing trace: a click (or mouse move) one second before the
    player becomes ready leaves two pending hide timers; the older one fires
    first and hides the controls two seconds after the load, and the newer
    one fires after it. *)
Theorem handleLoad_leaves_two_timers :
  let h := run [VideoClick; Wait 1000; Load None] (mount true) in
  pending (runtime h)
    = [{| timer_id := 1; fires_at := 3000 |};
       {| timer_id := 2; fires_at := 4000 |}] /\
  controlsTimeoutRef h = Some 2%nat /\
  fired (runtime (wait 2000 h)) = [1%nat] /\
  showControls (state (wait 2000 h)) = false /\
  fired (runtime (wait 3000 h)) = [1%nat; 2%nat] /\
  pending (runtime (unmount h)) = [{| timer_id := 1; fires_at := 3000 |}].
Proof. repeat split. Qed.

End PlayerProperties.

(** ** The REST client *)

Section ClientProperties.

Import ApiClient.

Lemma handleNetworkError_is_AppError (e : JsError) :
  exists message code statusCode,
    handleNetworkError e = AppError message code statusCode.
Proof.
  destruct e as [m c s|m|m|]; simpl; unfold AppError_default, NetworkError;
    try destruct (includes "fetch" m); eauto.
Qed.

(** C9 (as amended): on a response whose status is outside 200-299,
    [request] throws an [AppError] and never returns.  For status 422 whose
    body reads as the validation list, it is the validation error whose
    message joins the per-field messages; for status 422 whose body cannot
    be read that way, it is what [handleNetworkError] makes of the error
    thrown on the way, the unknown error of status 500 for a plain error;
    for any other status, the API error that carries the status. *)
Theorem request_non_2xx (Video : Type)
        (JSON_parse : string -> option (ApiData Video)) (response : Response) :
  ok response = false ->
  (exists message code statusCode,
      request JSON_parse (Normal response)
      = Throw (AppError message code statusCode)) /\
  (status response = 422%Z ->
   forall validationError, json response = Normal validationError ->
     request JSON_parse (Normal response)
     = Throw (AppError
                (join ", "
                   (map (fun d => join "." (map LocItem_toString (loc d))
                                  ++ ": " ++ msg d)
                        (detail validationError)))
                "VALIDATION_ERROR" 422)) /\
  (status response = 422%Z ->
   forall e, json response = Throw e ->
     request JSON_parse (Normal response) = Throw (handleNetworkError e) /\
     (forall message, e = OtherError message ->
        request JSON_parse (Normal response)
        = Throw (AppError message "UNKNOWN_ERROR" 500)) /\
     (forall message, e = TypeError message ->
        includes "fetch" message = false ->
        request JSON_parse (Normal response)
        = Throw (AppError message "UNKNOWN_ERROR" 500))) /\
  (status response <> 422%Z ->
     request JSON_parse (Normal response)
     = Throw (AppError ("HTTP " ++ Number_toString (status response) ++ ": "
                                ++ statusText response)
                       "API_ERROR" (status response))).
Proof.
  intros Hok. unfold request. rewrite Hok. simpl.
  split; [|split; [|split]].
  - destruct (status response =? 422)%Z;
      [destruct (json response) as [ve|e]|]; simpl; eauto.
    destruct (handleNetworkError_is_AppError e) as [m [c [s ->]]]. eauto.
  - intros H422 ve Hj. rewrite H422, Hj. reflexivity.
  - intros H422 e Hj. rewrite H422, Hj. simpl. split; [reflexivity|]. split.
    + now intros message ->.
    + intros message -> Hf. simpl. now rewrite Hf.
  - intros Hn. apply Z.eqb_neq in Hn. now rewrite Hn.
Qed.

(** A 422 answer of the backend with two field errors, a 422 answer whose
    body is a page of HTML, and a 404. *)
Lemma request_non_2xx_witness :
  request (fun _ : string => @None (ApiData string))
    (Normal (mkResponse 422 "Unprocessable Entity"
               (Normal (mkValidationError
                          [mkDetail [loc_string "body"; loc_string "title"]
                                    "field required" "value_error.missing";
                           mkDetail [loc_string "body"; loc_number 0]
                                    "value is not a valid dict" "type_error.dict"]))
               (Throw NonError)))
  = Throw (AppError
             "body.title: field required, body.0: value is not a valid dict"
             "VALIDATION_ERROR" 422) /\
  request (fun _ : string => @None (ApiData string))
    (Normal (mkResponse 422 "Unprocessable Entity"
               (Throw (OtherError "Unexpected token < in JSON at position 0"))
               (Throw NonError)))
  = Throw (AppError "Unexpected token < in JSON at position 0"
                    "UNKNOWN_ERROR" 500) /\
  request (fun _ : string => @None (ApiData string))
    (Normal (mkResponse 404 "Not Found" (Throw NonError) (Throw NonError)))
  = Throw (AppError "HTTP 404: Not Found" "API_ERROR" 404).
Proof.
  pose proof (request_non_2xx string (fun _ => None)
                (mkResponse 422 "Unprocessable Entity"
                   (Normal (mkValidationError
                              [mkDetail [loc_string "body"; loc_string "title"]
                                        "field required" "value_error.missing";
                               mkDetail [loc_string "body"; loc_number 0]
                                        "value is not a valid dict"
                                        "type_error.dict"]))
                   (Throw NonError)) eq_refl)
    as (_ & Hlist & _).
  pose proof (request_non_2xx string (fun _ => None)
                (mkResponse 422 "Unprocessable Entity"
                   (Throw (OtherError "Unexpected token < in JSON at position 0"))
                   (Throw NonError)) eq_refl)
    as (_ & _ & Hhtml & _).
  pose proof (request_non_2xx string (fun _ => None)
                (mkResponse 404 "Not Found" (Throw NonError) (Throw NonError))
                eq_refl)
    as (_ & _ & _ & Hmissing).
  split; [|split].
  - exact (Hlist eq_refl _ eq_refl).
  - destruct (Hhtml eq_refl _ eq_refl) as (_ & Hplain & _).
    exact (Hplain _ eq_refl).
  - apply Hmissing. discriminate.
Defined.

(** C9, counterexample: two answers of status 422 for which [request] does
    not throw the validation error.  The first body is not JSON, so reading
    it throws; the second is JSON whose [detail] is a string, so mapping
    over it throws.  Both are thrown on as the unknown error of status
    500. *)
Lemma request_422_without_validation_error :
  ok (mkResponse 422 "Unprocessable Entity"
        (Throw (OtherError "Unexpected token < in JSON at position 0"))
        (Throw NonError)) = false /\
  request (fun _ : string => @None (ApiData string))
    (Normal (mkResponse 422 "Unprocessable Entity"
               (Throw (OtherError "Unexpected token < in JSON at position 0"))
               (Throw NonError)))
  = Throw (AppError "Unexpected token < in JSON at position 0"
                    "UNKNOWN_ERROR" 500) /\
  request (fun _ : string => @None (ApiData string))
    (Normal (mkResponse 422 "Unprocessable Entity"
               (Throw (TypeError "validationError.detail.map is not a function"))
               (Throw NonError)))
  = Throw (AppError "validationError.detail.map is not a function"
                    "UNKNOWN_ERROR" 500).
Proof. split; [|split]; reflexivity. Qed.

Lemma ceil_div_is_ceiling (t l : Z) :
  (0 < l)%Z -> is_ceiling (- ((- t) / l)) t l.
Proof.
  intros Hl. unfold is_ceiling.
  pose proof (Z.div_mod (- t) l ltac:(lia)) as Hdm.
  pose proof (Z.mod_pos_bound (- t) l Hl) as Hb.
  nia.
Qed.

Lemma is_ceiling_lt (n t l p : Z) :
  (0 < l)%Z -> is_ceiling n t l -> (p < n <-> p * l < t)%Z.
Proof. unfold is_ceiling. intros Hl [H1 H2]. split; intros H; nia. Qed.



(** The two pages are what the fetch of the listing returns. *)
Example pages_of_the_listing :
  forall p : Z,
    getVideosPaginated (fun _ => None) (page_of_12 p)
                       (Normal (listing_with_total eight_titles 20))
    = Normal (page_of_20 p).
Proof. reflexivity. Qed.

(** [createPaginatedResponse] computes the same flag without the ceiling. *)
Lemma hasNext_agrees_with_createPaginatedResponse (p l t : Z) :
  (0 < l)%Z ->
  less_than p (ceil_div (Some t) l)
  = hasNext (createPaginatedResponse_pagination p l t).
Proof.
  intros Hl. unfold ceil_div. simpl.
  assert (Hz : (l =? 0)%Z = false) by (apply Z.eqb_neq; lia).
  rewrite Hz. simpl.
  pose proof (is_ceiling_lt _ t l p Hl (ceil_div_is_ceiling t l Hl)) as H.
  destruct (p * l <? t)%Z eqn:E.
  - apply Z.ltb_lt. apply H. now apply Z.ltb_lt.
  - apply Z.ltb_ge. apply Z.ltb_ge in E. lia.
Qed.

End ClientProperties.

(** * Further properties *)

(** ** Classification records *)

Lemma truthy_not_empty (s : string) : truthy s = true -> s <> EmptyString.
Proof. destruct s; [discriminate | discriminate]. Qed.

Lemma parseVideoUrl_fits_kind (newURL : string -> option URL) (url : string) :
  well_formed (parseVideoUrl newURL url).
Proof.
  unfold parseVideoUrl.
  destruct (newURL url) as [u|]; [|unfold well_formed; simpl; auto].
  destruct (youtube_branch u _) as [p|] eqn:Ey.
  - unfold youtube_branch in Ey.
    destruct (includes "youtube.com" _ || includes "youtu.be" _); [|discriminate].
    match type of Ey with
    | (if truthy ?v then _ else _) = _ =>
        destruct (truthy v) eqn:Et; [|discriminate];
        injection Ey as <-; exists v
    end.
    simpl. repeat split; auto using truthy_not_empty.
  - destruct (vimeo_branch u _) as [p|] eqn:Ev.
    + unfold vimeo_branch in Ev.
      destruct (includes "vimeo.com" _); [|discriminate].
      destruct (truthy (slice1 (pathname u))) eqn:Et; [|discriminate].
      destruct (isNaN_Number (slice1 (pathname u))) eqn:En; [discriminate|].
      injection Ev as <-. exists (slice1 (pathname u)).
      simpl. repeat split; auto using truthy_not_empty.
    + destruct (hasVideoExtension u); unfold well_formed; simpl; eauto.
Qed.

(** X1: whatever the parser answers, the record [parseVideoUrl] returns is
    consistent with its kind: a YouTube or Vimeo record carries a non-empty
    id and the embed and thumbnail URLs built from that id, a direct record
    carries the path and no URL, an unknown record carries nothing. *)
Theorem parseVideoUrl_well_formed (newURL : string -> option URL) (url : string) :
  well_formed (parseVideoUrl newURL url).
Proof. apply parseVideoUrl_fits_kind. Qed.

(** X2: an address is embeddable exactly when [getVideoEmbedUrl] returns a
    URL, and that URL is never empty. *)
Theorem embeddable_iff_embed_url (newURL : string -> option URL) (url : string) :
  (isEmbeddablePlatform newURL url = true <->
   exists e, getVideoEmbedUrl newURL url = Some e) /\
  getVideoEmbedUrl newURL url <> Some EmptyString.
Proof.
  unfold isEmbeddablePlatform, getVideoEmbedUrl.
  pose proof (parseVideoUrl_fits_kind newURL url) as W.
  unfold well_formed in W.
  destruct (type (parseVideoUrl newURL url)).
  - destruct W as [id [_ [_ [-> _]]]]. simpl. split; [|discriminate].
    split; eauto.
  - destruct W as [id [_ [_ [_ [-> _]]]]]. simpl. split; [|discriminate].
    split; eauto.
  - destruct W as [_ [-> _]]. split; [|discriminate].
    split; [discriminate | intros [e E]; discriminate].
  - destruct W as [_ [-> _]]. split; [|discriminate].
    split; [discriminate | intros [e E]; discriminate].
Qed.

(** ** Valid and classified addresses *)

Lemma lower_fold_ascii (c a : ascii) :
  (nat_of_ascii a < 128)%nat -> lower_char c = a -> fold_char c = a.
Proof.
  unfold lower_char, fold_char. intros Ha.
  destruct (in_range 65 90 c); simpl; auto.
  destruct (in_range 192 222 c && negb (Nat.eqb (nat_of_ascii c) 215)) eqn:E;
    auto.
  intros <-. exfalso.
  apply andb_true_iff in E as [E _]. unfold in_range in E.
  apply andb_true_iff in E as [E1 E2].
  apply Nat.leb_le in E1. apply Nat.leb_le in E2.
  rewrite nat_ascii_embedding in Ha by lia. lia.
Qed.

Lemma eqb_lower_fold (e s : string) :
  all (fun a => (nat_of_ascii a <? 128)%nat) e = true ->
  String.eqb e (toLowerCase s) = true -> String.eqb e (fold_case s) = true.
Proof.
  revert s. induction e as [|a e IH]; intros [|c s]; simpl; auto.
  intros Ha. apply andb_true_iff in Ha as [Ha He].
  apply Nat.ltb_lt in Ha.
  destruct (Ascii.eqb a (lower_char c)) eqn:E; [|discriminate].
  apply Ascii.eqb_eq in E. symmetry in E.
  rewrite (lower_fold_ascii c a Ha E), Ascii.eqb_refl. now apply IH.
Qed.

Lemma endsWith_lower_fold (e s : string) :
  all (fun a => (nat_of_ascii a <? 128)%nat) e = true ->
  endsWith e (toLowerCase s) = true -> endsWith e (fold_case s) = true.
Proof.
  intros He. induction s as [|c s IH]; simpl.
  - auto.
  - intros H. apply orb_true_iff in H as [H|H]; apply orb_true_iff.
    + left. now apply (eqb_lower_fold e (String c s)).
    + right. now apply IH.
Qed.

Lemma extension_is_valid (path : string) :
  existsb (fun ext => endsWith ext (toLowerCase path)) videoExtensions = true ->
  matches_video_extension path = true.
Proof.
  unfold matches_video_extension, videoExtensions, validExtensions. simpl.
  rewrite !orb_false_r. intros H.
  repeat (apply orb_true_iff in H as [H|H]);
    apply endsWith_lower_fold in H; try reflexivity; rewrite H;
    now rewrite ?orb_true_r.
Qed.

(** X3: with a host name in lower case (as the platform parser delivers
    it), every address that [parseVideoUrl] classifies as YouTube, Vimeo or
    direct is accepted by [isValidVideoUrl]. *)
Theorem classified_urls_are_valid
        (newURL : string -> option URL) (url : string) (u : URL) :
  newURL url = Some u -> toLowerCase (hostname u) = hostname u ->
  type (parseVideoUrl newURL url) <> unknown ->
  isValidVideoUrl newURL url = true.
Proof.
  intros Hu Hl. unfold parseVideoUrl, isValidVideoUrl. rewrite Hu, Hl.
  unfold youtube_branch, vimeo_branch.
  destruct (includes "youtube.com" (hostname u) || includes "youtu.be" (hostname u));
    [reflexivity|].
  destruct (includes "vimeo.com" (hostname u)); [reflexivity|].
  unfold hasVideoExtension.
  destruct (existsb _ videoExtensions) eqn:E.
  - now rewrite (extension_is_valid _ E).
  - simpl. congruence.
Qed.

Lemma classified_urls_are_valid_witness :
  isValidVideoUrl URL_parse "https://cdn.example.com/lectures/intro.MP4" = true.
Proof.
  apply (classified_urls_are_valid URL_parse _
           (mkURL "cdn.example.com" "/lectures/intro.MP4" []));
    [reflexivity | reflexivity | discriminate].
Defined.

(** The converse fails: a Matroska file and a YouTube channel page are valid
    addresses that [parseVideoUrl] cannot classify. *)
Example valid_but_unknown :
  isValidVideoUrl URL_parse "https://cdn.example.com/intro.mkv" = true /\
  type (parseVideoUrl URL_parse "https://cdn.example.com/intro.mkv") = unknown /\
  isValidVideoUrl URL_parse "https://www.youtube.com/channel/abc" = true /\
  type (parseVideoUrl URL_parse "https://www.youtube.com/channel/abc") = unknown.
Proof. repeat split. Qed.

(** ** Where the captured id ends *)

Lemma length_append (a b : string) :
  String.length (a ++ b) = (String.length a + String.length b)%nat.
Proof. induction a as [|c a IH]; simpl; auto. Qed.

Lemma take_append (a b : string) : take (String.length a) (a ++ b) = a.
Proof. induction a as [|c a IH]; simpl; [now destruct b | now rewrite IH]. Qed.

Lemma consumed_prefix (a b : string) : consumed (a ++ b) b = a.
Proof.
  unfold consumed. rewrite length_append.
  replace (String.length a + String.length b - String.length b)%nat
    with (String.length a) by lia.
  apply take_append.
Qed.

Lemma star_greedy_stops {A} (p : ascii -> bool) (X : string) (c : ascii)
      (rest : string) (k : string -> option A) (v : A) :
  all p X = true -> p c = false -> k (String c rest) = Some v ->
  star_greedy p (X ++ String c rest) k = Some v.
Proof.
  intros Hall Hc Hk. induction X as [|x X IH]; simpl in *.
  - now rewrite Hc.
  - apply andb_true_iff in Hall as [Hx HX]. rewrite Hx.
    now rewrite (IH HX).
Qed.

(** A trailing group [(C+)] captures the run of class characters in front
    of the first character outside the class. *)
Lemma group_plus_stops (p : ascii -> bool) (X : string) (c : ascii)
      (rest : string) :
  X <> EmptyString -> all p X = true -> p c = false ->
  plus_greedy p (X ++ String c rest)
     (fun s' => Some (Some (consumed (X ++ String c rest) s')))
  = Some (Some X).
Proof.
  intros Hne Hall Hc. destruct X as [|x X]; [congruence|].
  pose proof Hall as Hall'. simpl in Hall'.
  apply andb_true_iff in Hall' as [Hx HX].
  change (String x X ++ String c rest) with (String x (X ++ String c rest)).
  unfold plus_greedy. rewrite Hx.
  apply star_greedy_stops; auto.
  change (String x (X ++ String c rest)) with (String x X ++ String c rest).
  now rewrite consumed_prefix.
Qed.

Ltac capture_until H Hall Hc :=
  apply exec_here; unfold match_here; simpl;
  rewrite (group_plus_stops _ _ _ _ H Hall Hc); reflexivity.

(** X4: whatever follows the id, [extractYouTubeVideoId] returns the id up
    to the first [&], [?], [#] or line feed, on each of the three address
    shapes. *)
Theorem youtube_id_ends_at_delimiter (X rest : string) (c : ascii) :
  X <> EmptyString -> all id_char X = true -> id_char c = false ->
  extractYouTubeVideoId (watch_url X ++ String c rest) = Some X /\
  extractYouTubeVideoId (short_url X ++ String c rest) = Some X /\
  extractYouTubeVideoId (embed_url X ++ String c rest) = Some X.
Proof.
  intros H Hall Hc.
  repeat split; apply extract_of_pattern1;
    unfold watch_url, short_url, embed_url, youtube_pattern1; simpl append;
    skip_chars 8; capture_until H Hall Hc.
Qed.

Lemma youtube_id_ends_at_delimiter_witness :
  extractYouTubeVideoId (watch_url "dQw4w9WgXcQ" ++ "&t=42s") = Some "dQw4w9WgXcQ" /\
  extractYouTubeVideoId (short_url "dQw4w9WgXcQ" ++ "&t=42s") = Some "dQw4w9WgXcQ" /\
  extractYouTubeVideoId (embed_url "dQw4w9WgXcQ" ++ "&t=42s") = Some "dQw4w9WgXcQ".
Proof.
  apply (youtube_id_ends_at_delimiter "dQw4w9WgXcQ" "t=42s" "&"%char);
    [discriminate | reflexivity | reflexivity].
Defined.

(** X5: [extractVimeoVideoId] returns the digits that follow [vimeo.com/]
    up to the first character that is not a digit, and [isVimeoUrl] accepts
    the address, whatever follows the digits. *)
Theorem vimeo_id_ends_at_non_digit (ds rest : string) (c : ascii) :
  ds <> EmptyString -> all is_digit ds = true -> is_digit c = false ->
  extractVimeoVideoId (vimeo_url ds ++ String c rest) = Some ds /\
  isVimeoUrl (vimeo_url ds ++ String c rest) = true.
Proof.
  intros H Hall Hc.
  assert (E : exec vimeo_pattern (vimeo_url ds ++ String c rest) = Some (Some ds)).
  { unfold vimeo_url, vimeo_pattern. simpl append.
    skip_chars 8. capture_until H Hall Hc. }
  unfold extractVimeoVideoId, match1, isVimeoUrl, test. now rewrite E.
Qed.

Lemma vimeo_id_ends_at_non_digit_witness :
  extractVimeoVideoId (vimeo_url "76979871" ++ "abc") = Some "76979871" /\
  isVimeoUrl (vimeo_url "76979871" ++ "abc") = true.
Proof.
  apply (vimeo_id_ends_at_non_digit "76979871" "bc" "a"%char);
    [discriminate | reflexivity | reflexivity].
Defined.

(** The two classifiers part ways on such an address, and the YouTube
    patterns win over the Vimeo pattern wherever they match. *)
Example classifiers_disagree :
  getVideoPlatform "https://vimeo.com/76979871abc" = vimeo /\
  type (parseVideoUrl URL_parse "https://vimeo.com/76979871abc") = unknown /\
  getVideoPlatform "https://vimeo.com/76979871?from=youtu.be/x" = youtube.
Proof. repeat split. Qed.

(** ** The frame capture *)

(** X6: the capture seeks to at most one second and never past the end of
    the video: for a duration that is not negative the requested time lies
    between 0 and the smaller of 1 and the duration. *)
Theorem capture_seek_within_video (d : Q) (seekable : bool) (c : Capture) :
  (0 <= d)%Q ->
  (0 <= currentTime (onloadedmetadata d seekable c))%Q /\
  (currentTime (onloadedmetadata d seekable c) <= 1)%Q /\
  (currentTime (onloadedmetadata d seekable c) <= d)%Q.
Proof.
  intros Hd. unfold onloadedmetadata. simpl.
  assert (H10 : (0 <= d * (1 # 10))%Q)
    by (apply Qmult_le_0_compat; [assumption | discriminate]).
  assert (Hle : (d * (1 # 10) <= d)%Q).
  { setoid_replace d with (d * 1)%Q at 2 by ring.
    rewrite (Qmult_comm d (1 # 10)), (Qmult_comm d 1).
    apply Qmult_le_compat_r; [discriminate | assumption]. }
  destruct seekable.
  - split; [|split].
    + apply Q.min_glb; [discriminate | assumption].
    + apply Q.le_min_l.
    + eapply Qle_trans; [apply Q.le_min_r | assumption].
  - split; [|split]; [apply Qle_refl | discriminate | assumption].
Qed.

Lemma capture_seek_within_video_witness :
  (0 <= currentTime (onloadedmetadata 4 true (mkCapture Pending 0)))%Q /\
  (currentTime (onloadedmetadata 4 true (mkCapture Pending 0)) <= 1)%Q /\
  (currentTime (onloadedmetadata 4 true (mkCapture Pending 0)) <= 4)%Q.
Proof.
  apply (capture_seek_within_video 4 true (mkCapture Pending 0)). discriminate.
Defined.

Lemma first_settling_event (events : list VideoEvent) :
  forallb is_metadata events = false ->
  exists pre e post,
    events = (pre ++ e :: post)%list /\
    forallb is_metadata pre = true /\ is_metadata e = false.
Proof.
  induction events as [|e events IH]; simpl; [discriminate|].
  destruct (is_metadata e) eqn:E; simpl.
  - intros H. destruct (IH H) as [pre [e' [post [-> [Hp He]]]]].
    exists (e :: pre), e', post. simpl. rewrite E. auto.
  - intros _. exists [], e, events. auto.
Qed.

(** X7: for a direct file that is not on an external domain, the promise of
    [generateVideoThumbnail] is still pending exactly when the element has
    delivered nothing but metadata events; a seek that fails therefore never
    settles it. *)
Theorem capture_pending_iff_metadata_only
        (newURL : string -> option URL) (host videoUrl : string) (u : URL)
        (events : list VideoEvent) :
  type (parseVideoUrl newURL videoUrl) = direct ->
  newURL videoUrl = Some u -> isExternalDomain host u = false ->
  (generateVideoThumbnail newURL host videoUrl events = Pending <->
   forallb is_metadata events = true).
Proof.
  intros Ht Hu Hx. unfold generateVideoThumbnail. rewrite Ht, Hu, Hx.
  split.
  - intros Hp. destruct (forallb is_metadata events) eqn:E; [reflexivity|].
    destruct (first_settling_event events E) as [pre [e [post [-> [Hpre He]]]]].
    rewrite (capture_settles pre post e 0 Hpre He) in Hp.
    destruct e as [d s|[|err|payload]|]; discriminate.
  - intros Hm. now rewrite fold_dispatch_metadata.
Qed.

Lemma capture_pending_iff_metadata_only_witness :
  generateVideoThumbnail URL_parse "localhost" "http://localhost/clip.mp4"
                         [Loadedmetadata 30 false; Loadedmetadata 30 false]
  = Pending.
Proof.
  apply (capture_pending_iff_metadata_only URL_parse "localhost"
           "http://localhost/clip.mp4" (mkURL "localhost" "/clip.mp4" []));
    reflexivity.
Defined.

(** X8: once the promise of [generateVideoThumbnail] has settled, no later
    event of the element changes it. *)
Theorem settled_thumbnail_is_final
        (newURL : string -> option URL) (host videoUrl : string)
        (events later : list VideoEvent) :
  generateVideoThumbnail newURL host videoUrl events <> Pending ->
  generateVideoThumbnail newURL host videoUrl (events ++ later)
  = generateVideoThumbnail newURL host videoUrl events.
Proof.
  unfold generateVideoThumbnail.
  destruct (type _); auto.
  destruct (newURL videoUrl) as [u|]; auto.
  destruct (isExternalDomain host u); auto.
  intros Hp. rewrite fold_left_app. now apply fold_dispatch_settled.
Qed.

Lemma settled_thumbnail_is_final_witness :
  generateVideoThumbnail URL_parse "localhost" "http://localhost/clip.mp4"
    ([Loadedmetadata 30 true; Seeked (DataUrl "image/jpeg;base64,/9j/4AAQ")]
       ++ [ErrorEvent; Seeked NoContext])
  = generateVideoThumbnail URL_parse "localhost" "http://localhost/clip.mp4"
      [Loadedmetadata 30 true; Seeked (DataUrl "image/jpeg;base64,/9j/4AAQ")].
Proof.
  apply (settled_thumbnail_is_final URL_parse "localhost"
           "http://localhost/clip.mp4"). discriminate.
Defined.

(** ** The player: controls, volume, seeking *)

Section PlayerExtras.

Import UseVideoPlayer.

Lemma click_arms_one_timer (h : Hook) :
  single_timer h ->
  pending (runtime (handleVideoClick h))
  = [{| timer_id := next_id (runtime h);
        fires_at := clock (runtime h) + 3000 |}] /\
  clock (runtime (handleVideoClick h)) = clock (runtime h) /\
  fired (runtime (handleVideoClick h)) = fired (runtime h).
Proof.
  intros [Hn Hp]. unfold handleVideoClick.
  unfold arm_controls_timeout, clear_controls_timeout. simpl.
  destruct Hp as [Hp|[t [Hp [Hr Ht]]]].
  - destruct (controlsTimeoutRef h) as [id|]; [destruct (Nat.eqb id 0)|];
      simpl; rewrite Hp; auto.
  - rewrite Hr. apply Nat.eqb_neq in Ht. rewrite Ht. simpl.
    rewrite Hp. simpl. rewrite Nat.eqb_refl. auto.
Qed.

Lemma click_state (h : Hook) :
  state (handleVideoClick h)
  = setShowControls true (setPlaying (negb (playing (state h))) (state h)).
Proof.
  unfold handleVideoClick, arm_controls_timeout, clear_controls_timeout. simpl.
  destruct (controlsTimeoutRef h) as [id|]; [destruct (Nat.eqb id 0)|];
    reflexivity.
Qed.

(** X9: when at most one hide timer is pending, a click on the video shows
    the controls, keeps them shown for the next 3000 ms and hides them once
    3000 ms have passed, leaving no timer behind. *)
Theorem click_hides_controls_after_3s (h : Hook) (ms : Z) :
  single_timer h ->
  showControls (state (handleVideoClick h)) = true /\
  ((ms < 3000)%Z ->
     showControls (state (wait ms (handleVideoClick h))) = true /\
     List.length (pending (runtime (wait ms (handleVideoClick h)))) = 1%nat) /\
  ((3000 <= ms)%Z ->
     showControls (state (wait ms (handleVideoClick h))) = false /\
     pending (runtime (wait ms (handleVideoClick h))) = []).
Proof.
  intros Hs. destruct (click_arms_one_timer h Hs) as [Hp [Hc Hf]].
  pose proof (click_state h) as Hst.
  split; [now rewrite Hst|].
  remember (handleVideoClick h) as h' eqn:Eh. clear Eh.
  unfold wait, elapse. simpl. rewrite Hp, Hc, Hf, Hst. simpl.
  unfold due. simpl.
  split; intros Hms.
  - assert (E : (clock (runtime h) + 3000 <=? clock (runtime h) + ms)%Z = false)
      by (apply Z.leb_gt; lia).
    rewrite E. simpl. rewrite app_nil_r, Nat.sub_diag. simpl. auto.
  - assert (E : (clock (runtime h) + 3000 <=? clock (runtime h) + ms)%Z = true)
      by (apply Z.leb_le; lia).
    rewrite E. simpl. rewrite length_app. simpl.
    replace (List.length (fired (runtime h)) + 1 - List.length (fired (runtime h)))%nat
      with 1%nat by lia.
    simpl. auto.
Qed.

Lemma click_hides_controls_after_3s_witness :
  showControls (state (handleVideoClick (mount true))) = true /\
  showControls (state (wait 2999 (handleVideoClick (mount true)))) = true /\
  showControls (state (wait 3000 (handleVideoClick (mount true)))) = false.
Proof.
  destruct (click_hides_controls_after_3s (mount true) 2999
              (single_timer_mount true)) as [Hshown [Hbefore _]].
  destruct (click_hides_controls_after_3s (mount true) 3000
              (single_timer_mount true)) as [_ [_ Hafter]].
  split; [exact Hshown|]. split.
  - apply Hbefore. reflexivity.
  - apply Hafter. discriminate.
Defined.

(** X10: after any sequence of clicks, play/pause toggles and waits on a
    freshly mounted hook, unmounting leaves no hide timer pending. *)
Theorem unmount_clears_timer (trace : list Step) (player : bool) :
  (forall s, In s trace -> is_load s = false) ->
  pending (runtime (unmount (run trace (mount player)))) = [].
Proof.
  intros Hs.
  destruct (clicks_keep_one_timer trace (mount player) Hs
              (single_timer_mount player)) as [_ [Hp|[t [Hp [Hr Ht]]]]];
    unfold unmount, clear_controls_timeout.
  - destruct (controlsTimeoutRef _) as [id|]; [destruct (Nat.eqb id 0)|];
      simpl; rewrite Hp; reflexivity.
  - rewrite Hr. apply Nat.eqb_neq in Ht. rewrite Ht. simpl.
    rewrite Hp. simpl. now rewrite Nat.eqb_refl.
Qed.

Lemma unmount_clears_timer_witness :
  pending (runtime (unmount (run [VideoClick; Wait 1000; VideoClick; PlayPause]
                                 (mount true)))) = [].
Proof.
  apply (unmount_clears_timer [VideoClick; Wait 1000; VideoClick; PlayPause] true).
  intros s [<-|[<-|[<-|[<-|[]]]]]; reflexivity.
Defined.



Lemma Qdiv_between_0_1 (a d : Q) :
  (0 < d)%Q -> (0 <= a)%Q -> (a <= d)%Q -> (0 <= a / d)%Q /\ (a / d <= 1)%Q.
Proof.
  intros Hd Ha Had. split.
  - apply Qle_shift_div_l; [assumption|]. now rewrite Qmult_0_l.
  - apply Qle_shift_div_r; [assumption|]. now rewrite Qmult_1_l.
Qed.

(** X12: with a player attached and a positive known duration, the arrow
    keys forward a played fraction between 0 and 1 whenever the player's
    current time lies within the video. *)
Theorem arrow_keys_forward_fraction (h : Hook) (currentTime : Q) :
  playerRef h = true -> (0 < duration (state h))%Q ->
  (0 <= currentTime)%Q -> (currentTime <= duration (state h))%Q ->
  exists right left,
    calls (keyArrowRight currentTime h) = (calls h ++ [seekTo_amount right])%list /\
    calls (keyArrowLeft currentTime h) = (calls h ++ [seekTo_amount left])%list /\
    (0 <= right)%Q /\ (right <= 1)%Q /\ (0 <= left)%Q /\ (left <= 1)%Q.
Proof.
  intros Hp Hd H0 H1. unfold keyArrowRight, keyArrowLeft.
  rewrite Hp, (proj2 (Qlt_bool_iff _ _) Hd). simpl.
  set (d := duration (state h)) in *.
  do 2 eexists. split; [reflexivity|]. split; [reflexivity|].
  assert (Hr : (0 <= Qmin (currentTime + 10) d)%Q /\ (Qmin (currentTime + 10) d <= d)%Q).
  { split; [|apply Q.le_min_r].
    apply Q.min_glb; [|now apply Qlt_le_weak].
    setoid_replace 0%Q with (0 + 0)%Q by ring.
    apply Qplus_le_compat; [assumption | discriminate]. }
  assert (Hl : (0 <= Qmax (currentTime - 10) 0)%Q /\ (Qmax (currentTime - 10) 0 <= d)%Q).
  { split; [apply Q.le_max_r|].
    apply Q.max_lub; [|now apply Qlt_le_weak].
    apply Qle_trans with currentTime; [|assumption].
    setoid_replace currentTime with (currentTime - 0)%Q at 2 by ring.
    apply Qplus_le_compat; [apply Qle_refl | discriminate]. }
  destruct (Qdiv_between_0_1 _ d Hd (proj1 Hr) (proj2 Hr)).
  destruct (Qdiv_between_0_1 _ d Hd (proj1 Hl) (proj2 Hl)).
  auto.
Qed.

Lemma arrow_keys_forward_fraction_witness :
  exists right left,
    calls (keyArrowRight 95 (ready_hook 100)) = [seekTo_amount right] /\
    calls (keyArrowLeft 95 (ready_hook 100)) = [seekTo_amount left] /\
    (0 <= right)%Q /\ (right <= 1)%Q /\ (0 <= left)%Q /\ (left <= 1)%Q.
Proof.
  apply (arrow_keys_forward_fraction (ready_hook 100) 95);
    solve [reflexivity | discriminate].
Defined.

Import Progress.

(** X13: a progress event never records a duration that is not positive:
    afterwards the duration is the one reported when that one is positive,
    and the one known before in every other case; the timers and the calls
    on the player are untouched. *)
Theorem progress_keeps_duration_positive (p : ProgressState) (h : Hook) :
  (forall d, progress_duration p = Some d -> (0 < d)%Q ->
             duration (state (handleProgress p h)) = d) /\
  ((forall d, progress_duration p = Some d -> ~ (0 < d)%Q) ->
   duration (state (handleProgress p h)) = duration (state h)) /\
  ((0 < duration (state h))%Q -> (0 < duration (state (handleProgress p h)))%Q) /\
  runtime (handleProgress p h) = runtime h /\
  calls (handleProgress p h) = calls h.
Proof.
  unfold handleProgress.
  assert (Hb : forall h2 : Hook,
             duration (state
               (if Qlt_bool 0 (progress_loaded p) && Qlt_bool (progress_played p) 1
                then if Qlt_bool (progress_loaded p - progress_played p) bufferThreshold
                     then with_state (setBuffering true) h2
                     else with_state (setBuffering false) h2
                else h2)) = duration (state h2) /\
             runtime (if Qlt_bool 0 (progress_loaded p) && Qlt_bool (progress_played p) 1
                then if Qlt_bool (progress_loaded p - progress_played p) bufferThreshold
                     then with_state (setBuffering true) h2
                     else with_state (setBuffering false) h2
                else h2) = runtime h2 /\
             calls (if Qlt_bool 0 (progress_loaded p) && Qlt_bool (progress_played p) 1
                then if Qlt_bool (progress_loaded p - progress_played p) bufferThreshold
                     then with_state (setBuffering true) h2
                     else with_state (setBuffering false) h2
                else h2) = calls h2).
  { intros h2. destruct (_ && _); [destruct (Qlt_bool _ bufferThreshold)|]; auto. }
  destruct (progress_duration p) as [d|] eqn:Ed.
  - destruct (Qlt_bool 0 d) eqn:Ep.
    + assert (Hpos : (0 < d)%Q) by now apply Qlt_bool_iff.
      assert (Hz : Qeq_bool d 0 = false).
      { destruct (Qeq_bool d 0) eqn:E; auto. apply Qeq_bool_iff in E.
        rewrite E in Hpos. now apply Qlt_irrefl in Hpos. }
      rewrite Hz. simpl.
      destruct (Hb (with_state (setDuration d) (with_state (setPlayed (progress_played p)) h)))
        as [-> [-> ->]]. simpl.
      repeat split; auto.
      * now intros d' [= <-] _.
      * intros Hn. exfalso. now apply (Hn d).
    + rewrite andb_false_r.
      destruct (Hb (with_state (setPlayed (progress_played p)) h)) as [-> [-> ->]].
      simpl. repeat split; auto.
      intros d' [= <-] Hpos. apply Qlt_bool_iff in Hpos. congruence.
  - destruct (Hb (with_state (setPlayed (progress_played p)) h)) as [-> [-> ->]].
    simpl. repeat split; auto. discriminate.
Qed.

Lemma progress_keeps_duration_positive_witness :
  duration (state (handleProgress (mkProgress (1 # 4) (1 # 2) (Some 120%Q))
                                  (mount true))) = 120%Q.
Proof.
  apply (proj1 (progress_keeps_duration_positive
                  (mkProgress (1 # 4) (1 # 2) (Some 120%Q)) (mount true)) 120%Q);
    reflexivity.
Defined.

End PlayerExtras.

(** ** The Vimeo component *)

Section VimeoExtras.

Import VimeoPlayer VimeoControls.




Import UseVideoPlayer.

(** X15: before the duration is known, a seek on the Vimeo slider sends the
    engine the time 0 whatever the fraction, while the hook of the native
    player records the fraction and sends nothing. *)
Theorem seek_before_duration_is_known
        (c : Component) (h : Hook) (seekTo : Q) (rest : list Q) :
  (player c = true -> (VimeoPlayer.duration c == 0)%Q ->
   exists c' t,
     VimeoPlayer.handleSeek (seekTo :: rest) c = Some c' /\
     VimeoPlayer.calls c' = (VimeoPlayer.calls c ++ [setCurrentTime_call t])%list /\
     (t == 0)%Q /\ VimeoPlayer.played c' = seekTo) /\
  (~ (0 < duration (state h))%Q ->
   exists h',
     handleSeek (seekTo :: rest) h = Some h' /\
     calls h' = calls h /\ played (state h') = seekTo).
Proof.
  split.
  - intros Hp Hd. unfold VimeoPlayer.handleSeek. simpl. rewrite Hp.
    do 2 eexists. split; [reflexivity|]. simpl.
    split; [reflexivity|]. split; [|reflexivity].
    rewrite Hd. ring.
  - intros Hd. unfold handleSeek. simpl.
    destruct (Qlt_bool 0 (duration (state h))) eqn:E.
    + apply Qlt_bool_iff in E. contradiction.
    + rewrite andb_false_r. eexists. split; [reflexivity|]. auto.
Qed.

Lemma seek_before_duration_is_known_witness :
  (exists c' t,
      VimeoPlayer.handleSeek [(1 # 2)%Q] ready_vimeo = Some c' /\
      VimeoPlayer.calls c' = [setCurrentTime_call t] /\
      (t == 0)%Q /\ VimeoPlayer.played c' = (1 # 2)%Q) /\
  (exists h',
      handleSeek [(1 # 2)%Q] (mount true) = Some h' /\
      calls h' = [] /\ played (state h') = (1 # 2)%Q).
Proof.
  destruct (seek_before_duration_is_known ready_vimeo (mount true) (1 # 2)%Q [])
    as [Hv Hn].
  split.
  - apply Hv; reflexivity.
  - apply Hn. discriminate.
Defined.

End VimeoExtras.

(** ** The REST client: shapes and errors *)

Section ClientExtras.

Import ApiClient ApiMethods ErrorHandler.



(** X17: [getVideos] returns the same list for the four shapes the backend
    may send: the bare array, the object with a [videos] array, and the
    JSON text of either. *)
Theorem getVideos_accepts_four_shapes (Video : Type)
        (JSON_parse : string -> option (ApiData Video))
        (items : list Video) (o : Listing Video) (s1 s2 : string) :
  videos Video o = Some items ->
  JSON_parse s1 = Some (DataArray items) ->
  JSON_parse s2 = Some (DataObject o) ->
  getVideos JSON_parse (Normal (DataArray items)) = Normal (DataArray items) /\
  getVideos JSON_parse (Normal (DataObject o)) = Normal (DataArray items) /\
  getVideos JSON_parse (Normal (DataString s1)) = Normal (DataArray items) /\
  getVideos JSON_parse (Normal (DataString s2)) = Normal (DataArray items).
Proof.
  intros Hv H1 H2. unfold getVideos. now rewrite H1, H2, Hv.
Qed.

Lemma getVideos_accepts_four_shapes_witness :
  getVideos
    (fun s => if String.eqb s "[...]" then Some (DataArray eight_titles)
              else Some (DataObject (mkListing (Some eight_titles) None None None)))
    (Normal (DataString "{...}"))
  = Normal (DataArray eight_titles).
Proof.
  apply (getVideos_accepts_four_shapes string _ eight_titles
           (mkListing (Some eight_titles) None None None) "[...]" "{...}");
    reflexivity.
Defined.

(** X18: an object without a [videos] array is refused when it arrives as
    an object, but handed to the caller as it is when it arrives as JSON
    text. *)
Theorem getVideos_object_without_videos (Video : Type)
        (JSON_parse : string -> option (ApiData Video))
        (o : Listing Video) (s : string) :
  videos Video o = None -> JSON_parse s = Some (DataObject o) ->
  getVideos JSON_parse (Normal (DataObject o))
  = Throw (AppError "Unexpected response format from server" "PARSE_ERROR" 500) /\
  getVideos JSON_parse (Normal (DataString s)) = Normal (DataObject o).
Proof.
  intros Hv Hs. unfold getVideos. now rewrite Hs, Hv.
Qed.

Lemma getVideos_object_without_videos_witness :
  getVideos (fun _ => Some (DataObject (mkListing None (Some eight_titles) None None)))
            (Normal (DataString "{...}"))
  = Normal (DataObject (mkListing None (Some eight_titles) None None)).
Proof.
  apply (getVideos_object_without_videos string _
           (mkListing None (Some eight_titles) None None) "{...}");
    reflexivity.
Defined.

Lemma request_throws_AppError (Video : Type)
      (JSON_parse : string -> option (ApiData Video))
      (fetched : Completion Response) (e : JsError) :
  request JSON_parse fetched = Throw e ->
  exists message code statusCode, e = AppError message code statusCode.
Proof.
  unfold request, rethrow.
  destruct (match fetched with Normal _ => _ | Throw _ => _ end) as [a|e'];
    [discriminate|].
  intros [= <-]. apply handleNetworkError_is_AppError.
Qed.

(** X19: whatever [fetch] does, an error thrown by [getVideos] or by
    [getVideosPaginated] after [request] is an [AppError]. *)
Theorem client_errors_are_AppErrors (Video : Type)
        (JSON_parse : string -> option (ApiData Video))
        (params : PaginationParams) (fetched : Completion Response) (e : JsError) :
  getVideos JSON_parse (request JSON_parse fetched) = Throw e \/
  getVideosPaginated JSON_parse params (request JSON_parse fetched) = Throw e ->
  exists message code statusCode, e = AppError message code statusCode.
Proof.
  destruct (request JSON_parse fetched) as [response|e'] eqn:Er.
  - unfold getVideos, getVideosPaginated, invalid_format, unexpected_format,
      AppError_default.
    intros [H|H].
    + destruct response as [s|items|o| |];
        [destruct (JSON_parse s) as [[s'|items'|o'| |]|];
         [| |destruct (videos Video o')| | |]
        | |destruct (videos Video o)| |];
        try discriminate; injection H as <-; eauto.
    + destruct response as [s|items|o| |];
        [destruct (JSON_parse s) as [[s'|items'|o'| |]|]| | | |];
        simpl in H; try discriminate; injection H as <-; eauto.
  - simpl. intros [[= <-]|[= <-]]; eapply request_throws_AppError; eauto.
Qed.

Lemma client_errors_are_AppErrors_witness :
  exists message code statusCode,
    AppError "HTTP 503: Service Unavailable" "API_ERROR" 503
    = AppError message code statusCode.
Proof.
  apply (client_errors_are_AppErrors string (fun _ => None) (page_of_12 1)
           (Normal (mkResponse 503 "Service Unavailable"
                               (Throw NonError) (Throw NonError)))).
  left. reflexivity.
Defined.

(** X20: a 2xx response whose body is not JSON reaches the callers as the
    raw text, which [getVideos] and [getVideosPaginated] both report as an
    invalid response format. *)
Theorem non_json_body_is_invalid_format (Video : Type)
        (JSON_parse : string -> option (ApiData Video))
        (params : PaginationParams) (response : Response) (body : string) :
  ok response = true -> text response = Normal body ->
  JSON_parse body = None ->
  request JSON_parse (Normal response) = Normal (DataString body) /\
  getVideos JSON_parse (request JSON_parse (Normal response))
  = Throw (AppError "Invalid response format from server" "PARSE_ERROR" 500) /\
  getVideosPaginated JSON_parse params (request JSON_parse (Normal response))
  = Throw (AppError "Invalid response format from server" "PARSE_ERROR" 500).
Proof.
  intros Hok Ht Hp.
  assert (E : request JSON_parse (Normal response) = Normal (DataString body)).
  { unfold request. rewrite Hok, Ht, Hp. reflexivity. }
  rewrite E. unfold getVideos, getVideosPaginated. now rewrite Hp.
Qed.

Lemma non_json_body_is_invalid_format_witness :
  getVideos (fun _ : string => @None (ApiData string))
    (request (fun _ => None)
       (Normal (mkResponse 200 "OK" (Throw NonError) (Normal "<html>"))))
  = Throw (AppError "Invalid response format from server" "PARSE_ERROR" 500).
Proof.
  apply (non_json_body_is_invalid_format string (fun _ => None) (page_of_12 1)
           (mkResponse 200 "OK" (Throw NonError) (Normal "<html>")) "<html>");
    reflexivity.
Defined.

(** X21: [handleNetworkError] is idempotent and leaves an [AppError] as it
    is, so passing an error through it a second time (as [request] followed
    by [handleApiError] does) changes nothing. *)
Theorem handleNetworkError_idempotent (e : JsError) :
  handleNetworkError (handleNetworkError e) = handleNetworkError e /\
  (forall message code statusCode,
      handleNetworkError (AppError message code statusCode)
      = AppError message code statusCode).
Proof.
  split; [|reflexivity].
  destruct e as [m c s|m|m|]; simpl; auto.
  destruct (includes "fetch" m); reflexivity.
Qed.

(** X22: of what [request] throws for a response outside 200-299, the user
    is shown a fixed sentence for status 422 when the body reads as the
    validation list, whatever the fields the backend listed; for status
    422 when reading the body throws a plain error, the message of that
    error, or the default sentence when it has none; and the text
    [HTTP <status>: <statusText>] for every other status. *)
Theorem shown_message_of_failed_request (Video : Type)
        (JSON_parse : string -> option (ApiData Video))
        (response : Response) (e : JsError) :
  ok response = false ->
  request JSON_parse (Normal response) = Throw e ->
  (status response = 422%Z ->
   forall validationError, json response = Normal validationError ->
     shown_message e = Some "Please check your input and try again.") /\
  (status response = 422%Z ->
   forall err, json response = Throw err ->
     shown_message e = shown_message (handleNetworkError err) /\
     (forall message, err = OtherError message ->
        shown_message e
        = Some (if truthy message then message
                else "An unexpected error occurred."))) /\
  (status response <> 422%Z ->
   shown_message e
   = Some ("HTTP " ++ Number_toString (status response) ++ ": "
                   ++ statusText response)).
Proof.
  intros Hok. unfold request. rewrite Hok. simpl. intros H.
  split; [|split].
  - intros H422 validationError Hj. rewrite H422, Hj in H. simpl in H.
    injection H as <-. reflexivity.
  - intros H422 err Hj. rewrite H422, Hj in H. simpl in H.
    injection H as <-. split; [reflexivity|].
    intros message ->. reflexivity.
  - intros Hn. apply Z.eqb_neq in Hn. rewrite Hn in H. simpl in H.
    injection H as <-. reflexivity.
Qed.

(** A 422 answer listing a field, a 422 answer whose body is a page of
    HTML, and a 404. *)
Lemma shown_message_of_failed_request_witness :
  shown_message (AppError "body.title: field required" "VALIDATION_ERROR" 422)
  = Some "Please check your input and try again." /\
  shown_message (AppError "Unexpected token < in JSON at position 0"
                          "UNKNOWN_ERROR" 500)
  = Some "Unexpected token < in JSON at position 0" /\
  shown_message (AppError "HTTP 404: Not Found" "API_ERROR" 404)
  = Some "HTTP 404: Not Found".
Proof.
  pose proof (shown_message_of_failed_request string (fun _ => None)
                (mkResponse 422 "Unprocessable Entity"
                   (Normal (mkValidationError
                              [mkDetail [loc_string "body"; loc_string "title"]
                                        "field required" "value_error.missing"]))
                   (Throw NonError))
                (AppError "body.title: field required" "VALIDATION_ERROR" 422)
                eq_refl eq_refl)
    as (Hlist & _).
  pose proof (shown_message_of_failed_request string (fun _ => None)
                (mkResponse 422 "Unprocessable Entity"
                   (Throw (OtherError "Unexpected token < in JSON at position 0"))
                   (Throw NonError))
                (AppError "Unexpected token < in JSON at position 0"
                          "UNKNOWN_ERROR" 500)
                eq_refl eq_refl)
    as (_ & Hhtml & _).
  pose proof (shown_message_of_failed_request string (fun _ => None)
                (mkResponse 404 "Not Found" (Throw NonError) (Throw NonError))
                (AppError "HTTP 404: Not Found" "API_ERROR" 404)
                eq_refl eq_refl)
    as (_ & _ & Hmissing).
  split; [|split].
  - exact (Hlist eq_refl _ eq_refl).
  - destruct (Hhtml eq_refl _ eq_refl) as (_ & Hplain).
    exact (Hplain _ eq_refl).
  - apply Hmissing. discriminate.
Defined.

End ClientExtras.

(** ** Paging through the listing *)

Section PagingExtras.

Import ApiClient UseVideosPaginated.

Variable Video : Type.
Variable JSON_parse : string -> option (ApiData Video).
Variable all : list Video.
Variable pageSize : Z.
Hypothesis pageSize_positive : (0 < pageSize)%Z.

Lemma firstn_more (a b : nat) (l : list Video) :
  (firstn a l ++ firstn b (skipn a l))%list = firstn (a + b) l.
Proof.
  revert l. induction a as [|a IH]; intros [|x l]; simpl; auto.
  - now rewrite firstn_nil.
  - now rewrite IH.
Qed.

Lemma served_total (slice : list Video) :
  (List.length slice <= List.length all)%nat ->
  or_number (Some (Z.of_nat (List.length all)))
            (or_number None (length_of (DataArray slice)))
  = Some (Z.of_nat (List.length all)).
Proof.
  intros Hle. unfold or_number. simpl.
  destruct (Z.of_nat (List.length all) =? 0)%Z eqn:E; simpl; [|reflexivity].
  apply Z.eqb_eq in E. f_equal. lia.
Qed.

Lemma slice_length (a b : nat) :
  (List.length (firstn a (skipn b all)) <= List.length all)%nat.
Proof.
  rewrite length_firstn, length_skipn. lia.
Qed.

(** What the backend's answer for a page is read as: the slice of the
    page and whether the listing goes on after it. *)
Lemma awaited_served (pageNum : Z) :
  awaited Video JSON_parse all pageSize pageNum
  = Some (Normal
            (firstn (Z.to_nat pageSize)
                    (skipn (Z.to_nat ((pageNum - 1) * pageSize)) all),
             (pageNum * pageSize <? Z.of_nat (List.length all))%Z)).
Proof.
  unfold awaited, getVideosPaginated, served.
  cbn [normalize ApiClient.videos ApiClient.data ApiClient.listing_total
       ApiClient.count param_page param_limit].
  rewrite (served_total _ (slice_length _ _)).
  cbn [typed_response response_data pagination ApiClient.hasNext].
  rewrite (hasNext_agrees_with_createPaginatedResponse
             pageNum pageSize (Z.of_nat (List.length all)) pageSize_positive).
  reflexivity.
Qed.

(** One settled arrival loads the next page, or changes nothing when no
    page is left. *)
Lemma settled_arrival_loaded (j : nat) (w : World Video) :
  (1 <= j)%nat -> at_rest Video w ->
  pages_loaded Video all pageSize j (state Video w) ->
  exists w',
    run Video JSON_parse all pageSize settled_arrival w = Some w' /\
    at_rest Video w' /\
    (hasMore Video (state Video w) = true ->
     pages_loaded Video all pageSize (S j) (state Video w')) /\
    (hasMore Video (state Video w) = false -> w' = w).
Proof.
  intros Hj [Hr Hi] [Hp [Hv [Hm [Hl He]]]].
  destruct w as [st seen flying]. simpl in *. subst seen flying.
  unfold settled_arrival, run, step, arrival, loadNextPage.
  cbn [rendered]. rewrite Hl. simpl negb. cbn [andb].
  destruct (hasMore Video st) eqn:E.
  - unfold loadVideos_call, answer. cbn [inflight state rendered app].
    rewrite awaited_served. eexists. split; [reflexivity|].
    split; [split; reflexivity|]. split; [|discriminate].
    intros _. unfold pages_loaded, rerender. simpl.
    rewrite Hp, Hv.
    replace (Z.of_nat j + 1)%Z with (Z.of_nat (S j)) by lia.
    replace (Z.to_nat ((Z.of_nat (S j) - 1) * pageSize))
      with (j * Z.to_nat pageSize)%nat
      by (rewrite Z2Nat.inj_mul by lia; lia).
    rewrite firstn_more.
    replace (j * Z.to_nat pageSize + Z.to_nat pageSize)%nat
      with (Z.to_nat pageSize + j * Z.to_nat pageSize)%nat by lia.
    auto.
  - eexists. split; [reflexivity|].
    split; [split; reflexivity|]. split; [discriminate | reflexivity].
Qed.

Lemma run_app (events events' : list Event) (w : World Video) :
  run Video JSON_parse all pageSize (events ++ events')%list w
  = match run Video JSON_parse all pageSize events w with
    | Some w' => run Video JSON_parse all pageSize events' w'
    | None => None
    end.
Proof.
  revert w. induction events as [|e events IH]; intros w; simpl; auto.
  destruct (step Video JSON_parse all pageSize w e); auto.
Qed.

(** After [times] settled arrivals the hook is at rest and has loaded some
    [j'] pages, all the [j + times] it could or so many that none is left. *)
Lemma settled_arrivals_loaded (times j : nat) (w : World Video) :
  (1 <= j)%nat -> at_rest Video w ->
  pages_loaded Video all pageSize j (state Video w) ->
  exists w' j',
    run Video JSON_parse all pageSize (settled_arrivals times) w = Some w' /\
    at_rest Video w' /\
    (j <= j' <= j + times)%nat /\
    pages_loaded Video all pageSize j' (state Video w') /\
    (j' = (j + times)%nat \/ hasMore Video (state Video w') = false).
Proof.
  revert j w. induction times as [|times IH]; intros j w Hj Hrest Hst.
  - exists w, j. split; [reflexivity|]. split; [exact Hrest|].
    split; [lia|]. split; [exact Hst|]. left. lia.
  - cbn [settled_arrivals]. rewrite run_app.
    destruct (settled_arrival_loaded j w Hj Hrest Hst)
      as [w1 [E [Hrest1 [Hmore Hless]]]].
    rewrite E. destruct (hasMore Video (state Video w)) eqn:Em.
    + destruct (IH (S j) w1 ltac:(lia) Hrest1 (Hmore eq_refl))
        as [w' [j' [Es [Hr' [Hjj [Hl Hd]]]]]].
      exists w', j'. split; [exact Es|]. split; [exact Hr'|].
      split; [lia|]. split; [exact Hl|].
      destruct Hd as [->|Hd]; [left; lia | right; exact Hd].
    + rewrite (Hless eq_refl).
      destruct (IH j w Hj Hrest Hst) as [w' [j' [Es [Hr' [Hjj [Hl Hd]]]]]].
      exists w', j'. split; [exact Es|]. split; [exact Hr'|].
      split; [lia|]. split; [exact Hl|].
      destruct Hd as [->|Hd]; [|right; exact Hd].
      right. destruct Hl as [_ [_ [Hm' _]]]. rewrite Hm'.
      destruct Hst as [_ [_ [Hm _]]]. rewrite Hm in Em.
      apply Z.ltb_ge. apply Z.ltb_ge in Em. nia.
Qed.

End PagingExtras.

(** X23: against a backend that serves page p as the slice of the listing
    at offset (p - 1) * limit and reports the total, and provided that
    every load is answered and rendered before the sentinel row arrives
    again, the paginated hook shows, after its first load and any number
    of such arrivals, the videos of the listing in order without gap or
    repetition: the first (arrivals + 1) * limit of them, and [hasMore]
    tells whether any are left; once that many cover the listing it shows
    exactly the listing.  The hook is then at rest: the render is current
    and no request is in flight. *)
Theorem browse_collects_the_listing (Video : Type)
        (JSON_parse : string -> option (ApiClient.ApiData Video))
        (all : list Video) (pageSize : Z) (times : nat) :
  (0 < pageSize)%Z ->
  exists w,
    UseVideosPaginated.browse Video JSON_parse all pageSize times = Some w /\
    at_rest Video w /\
    UseVideosPaginated.videos Video (UseVideosPaginated.state Video w)
    = firstn (S times * Z.to_nat pageSize) all /\
    UseVideosPaginated.hasMore Video (UseVideosPaginated.state Video w)
    = (Z.of_nat (S times) * pageSize <? Z.of_nat (List.length all))%Z /\
    UseVideosPaginated.loading Video (UseVideosPaginated.state Video w) = false /\
    UseVideosPaginated.error Video (UseVideosPaginated.state Video w) = None /\
    ((List.length all <= S times * Z.to_nat pageSize)%nat ->
     UseVideosPaginated.videos Video (UseVideosPaginated.state Video w) = all).
Proof.
  intros Hpos. unfold UseVideosPaginated.browse.
  rewrite (run_app Video JSON_parse all pageSize).
  unfold UseVideosPaginated.mount, UseVideosPaginated.loadVideos_call.
  cbn [UseVideosPaginated.run UseVideosPaginated.step
       UseVideosPaginated.answer UseVideosPaginated.inflight
       UseVideosPaginated.state UseVideosPaginated.rendered app].
  rewrite (awaited_served Video JSON_parse all pageSize Hpos).
  cbn [UseVideosPaginated.loadVideos_end UseVideosPaginated.loadVideos_begin
       UseVideosPaginated.initial UseVideosPaginated.rerender
       UseVideosPaginated.state UseVideosPaginated.inflight
       UseVideosPaginated.error UseVideosPaginated.videos].
  match goal with
  | |- context [UseVideosPaginated.run _ _ _ _ _ ?w] => set (w0 := w)
  end.
  assert (Hrest0 : at_rest Video w0) by (split; reflexivity).
  assert (H0 : pages_loaded Video all pageSize 1
                 (UseVideosPaginated.state Video w0)).
  { unfold pages_loaded, w0. simpl. rewrite Nat.add_0_r.
    repeat split; auto. }
  destruct (settled_arrivals_loaded Video JSON_parse all pageSize Hpos
              times 1 w0 (le_n 1) Hrest0 H0)
    as [w [j [E [Hrest [Hj [[Hp [Hv [Hm [Hl He]]]] Hd]]]]]].
  exists w. split; [exact E|]. split; [exact Hrest|].
  assert (Hcover : (j = S times) \/
                   (List.length all <= j * Z.to_nat pageSize)%nat).
  { destruct Hd as [->|Hd]; [left; lia|].
    right. rewrite Hm in Hd. apply Z.ltb_ge in Hd.
    rewrite <- (Z2Nat.id pageSize) in Hd by lia. nia. }
  assert (Hfirst : firstn (j * Z.to_nat pageSize) all
                   = firstn (S times * Z.to_nat pageSize) all).
  { destruct Hcover as [->|Hc]; [reflexivity|].
    rewrite !firstn_all2; auto. nia. }
  split; [now rewrite Hv|]. split.
  - rewrite Hm. destruct Hcover as [->|Hc]; [reflexivity|].
    assert ((Z.of_nat j * pageSize <? Z.of_nat (List.length all))%Z = false).
    { apply Z.ltb_ge. rewrite <- (Z2Nat.id pageSize) by lia. nia. }
    assert ((Z.of_nat (S times) * pageSize <? Z.of_nat (List.length all))%Z = false).
    { apply Z.ltb_ge. rewrite <- (Z2Nat.id pageSize) by lia. nia. }
    congruence.
  - split; [exact Hl|]. split; [exact He|].
    intros Hall. rewrite Hv, Hfirst. now apply firstn_all2.
Qed.

Lemma browse_collects_the_listing_witness :
  exists w,
    UseVideosPaginated.browse string (fun _ => None) eight_titles 3 2 = Some w /\
    UseVideosPaginated.videos string (UseVideosPaginated.state string w)
    = eight_titles /\
    UseVideosPaginated.hasMore string (UseVideosPaginated.state string w)
    = false.
Proof.
  destruct (browse_collects_the_listing string (fun _ => None) eight_titles 3 2)
    as [w [E [_ [_ [Hm [_ [_ Hall]]]]]]]; [reflexivity|].
  exists w. split; [exact E|]. split; [apply Hall; simpl; lia | exact Hm].
Defined.

(** The proviso matters: when the sentinel row arrives twice within one
    render, both calls of [loadNextPage] see [loading = false] and
    [page = 1], the second page is fetched twice and shown twice. *)
Example two_arrivals_in_one_render :
  exists w,
    UseVideosPaginated.run string (fun _ => None) eight_titles 3
      [UseVideosPaginated.Answer; UseVideosPaginated.Rerender;
       UseVideosPaginated.Arrival; UseVideosPaginated.Arrival;
       UseVideosPaginated.Answer; UseVideosPaginated.Answer;
       UseVideosPaginated.Rerender]
      (UseVideosPaginated.mount string 1)
    = Some w /\
    UseVideosPaginated.videos string (UseVideosPaginated.state string w)
    = ["Intro"; "Sets"; "Maps"; "Trees"; "Graphs"; "Sorting";
       "Trees"; "Graphs"; "Sorting"] /\
    UseVideosPaginated.page string (UseVideosPaginated.state string w) = 2%Z.
Proof. eexists. split; [reflexivity|]. split; reflexivity. Qed.

(** ** A listing without a total *)

Section MoreClientExtras.

Import ApiClient.

(** X24: when the backend sends the page as a bare array, or as an object
    with only a [videos] array, the total is taken to be the length of the
    page; with at most [limit] videos on the page, [hasNext] is then false
    on every page from the first on. *)
Theorem no_total_means_no_next_page (Video : Type)
        (JSON_parse : string -> option (ApiData Video))
        (params : PaginationParams) (items : list Video)
        (response : ApiData Video) (r : PaginatedResponse Video) :
  response = DataArray items \/
  response = DataObject (mkListing (Some items) None None None) ->
  getVideosPaginated JSON_parse params (Normal response) = Normal r ->
  (0 < limit (pagination r))%Z ->
  (Z.of_nat (List.length items) <= limit (pagination r))%Z ->
  (1 <= page (pagination r))%Z ->
  total (pagination r) = Some (Z.of_nat (List.length items)) /\
  hasNext (pagination r) = false.
Proof.
  intros Hr. unfold getVideosPaginated.
  assert (E : (match response with
               | DataString s =>
                   match JSON_parse s with
                   | Some parsed =>
                       match normalize parsed with
                       | Normal vt => Normal vt
                       | Throw _ =>
                           Throw (AppError_default
                                    "Invalid response format from server" "PARSE_ERROR")
                       end
                   | None =>
                       Throw (AppError_default
                                "Invalid response format from server" "PARSE_ERROR")
                   end
               | DataArray _ | DataObject _ => normalize response
               | _ => Normal (DataArray [], Some 0%Z)
               end)
              = Normal (DataArray items, Some (Z.of_nat (List.length items)))).
  { destruct Hr as [->| ->]; reflexivity. }
  rewrite E. intros [= <-].
  cbn [pagination limit page total hasNext]. intros Hl Hlen Hp.
  split; [reflexivity|].
  set (l := match param_limit params with Some l => l | None => limit_default end) in *.
  set (p := match param_page params with Some p => p | None => page_default end) in *.
  assert (Hz : (l =? 0)%Z = false) by (apply Z.eqb_neq; lia).
  rewrite Hz. simpl. apply Z.ltb_ge.
  destruct (ceil_div_is_ceiling (Z.of_nat (List.length items)) l Hl) as [H1 H2].
  nia.
Qed.

Lemma no_total_means_no_next_page_witness :
  hasNext (pagination
             (mkPaginated string (DataArray eight_titles)
                (mkPagination 1 12 (Some 8%Z) (Finite 1) false false)))
  = false.
Proof.
  apply (no_total_means_no_next_page string (fun _ => None) (page_of_12 1)
           eight_titles (DataArray eight_titles));
    solve [left; reflexivity | reflexivity | discriminate].
Defined.

End MoreClientExtras.

(** ** Durations *)

Lemma two_digits_below_60 (k : nat) :
  (k < 60)%nat ->
  String.length (padStart2 (ApiClient.Number_toString (Z.of_nat k))) = 2%nat.
Proof.
  intros H. do 60 (destruct k as [|k]; [reflexivity|]). lia.
Qed.

(** X25: for a whole number of seconds from 0 to [MAX_SAFE_INTEGER],
    [formatVideoDuration] prints hours, minutes and seconds that add up to
    the input, with minutes and seconds below 60; the seconds always take
    two characters, and so do the minutes once there are hours, which are
    printed only when positive. *)
Theorem formatVideoDuration_fields (seconds : Z) :
  (0 <= seconds <= MAX_SAFE_INTEGER)%Z ->
  exists h m s mm ss,
    (seconds = 3600 * h + 60 * m + s)%Z /\
    (0 <= h)%Z /\ (0 <= m < 60)%Z /\ (0 <= s < 60)%Z /\
    mm = padStart2 (ApiClient.Number_toString m) /\
    ss = padStart2 (ApiClient.Number_toString s) /\
    String.length mm = 2%nat /\ String.length ss = 2%nat /\
    formatVideoDuration seconds
    = if (seconds <? 3600)%Z
      then ApiClient.Number_toString m ++ ":" ++ ss
      else ApiClient.Number_toString h ++ ":" ++ mm ++ ":" ++ ss.
Proof.
  intros [H0 _].
  exists (seconds / 3600)%Z, (Z.rem seconds 3600 / 60)%Z, (Z.rem seconds 60).
  do 2 eexists.
  rewrite !Z.rem_mod_nonneg by lia.
  pose proof (Z.div_mod seconds 3600 ltac:(lia)) as D1.
  pose proof (Z.mod_pos_bound seconds 3600 ltac:(lia)) as B1.
  pose proof (Z.div_mod (seconds mod 3600) 60 ltac:(lia)) as D2.
  pose proof (Z.mod_pos_bound (seconds mod 3600) 60 ltac:(lia)) as B2.
  assert (E60 : (seconds mod 60 = (seconds mod 3600) mod 60)%Z).
  { symmetry.
    apply (Z.mod_unique seconds 60
             (60 * (seconds / 3600) + seconds mod 3600 / 60)%Z).
    - left. apply Z.mod_pos_bound. lia.
    - pose proof (Z.div_mod (seconds mod 3600) 60 ltac:(lia)). lia. }
  pose proof (Z.mod_pos_bound seconds 60 ltac:(lia)) as B3.
  assert (Hm : (0 <= seconds mod 3600 / 60 < 60)%Z).
  { split; [apply Z.div_pos; lia|]. apply Z.div_lt_upper_bound; lia. }
  split; [lia|]. split; [apply Z.div_pos; lia|].
  split; [exact Hm|]. split; [exact B3|].
  split; [reflexivity|]. split; [reflexivity|].
  split.
  { rewrite <- (Z2Nat.id (seconds mod 3600 / 60)) by lia.
    apply two_digits_below_60. lia. }
  split.
  { rewrite <- (Z2Nat.id (seconds mod 60)) by lia.
    apply two_digits_below_60. lia. }
  unfold formatVideoDuration. rewrite !Z.rem_mod_nonneg by lia.
  destruct (seconds <? 3600)%Z eqn:E.
  - apply Z.ltb_lt in E. rewrite (Z.div_small seconds 3600) by lia. reflexivity.
  - apply Z.ltb_ge in E.
    assert (Hh : (0 <? seconds / 3600)%Z = true).
    { apply Z.ltb_lt. apply Z.div_str_pos. lia. }
    now rewrite Hh.
Qed.

Lemma formatVideoDuration_fields_witness :
  exists h m s mm ss,
    (3725 = 3600 * h + 60 * m + s)%Z /\
    (0 <= h)%Z /\ (0 <= m < 60)%Z /\ (0 <= s < 60)%Z /\
    mm = padStart2 (ApiClient.Number_toString m) /\
    ss = padStart2 (ApiClient.Number_toString s) /\
    String.length mm = 2%nat /\ String.length ss = 2%nat /\
    formatVideoDuration 3725
    = if (3725 <? 3600)%Z
      then ApiClient.Number_toString m ++ ":" ++ ss
      else ApiClient.Number_toString h ++ ":" ++ mm ++ ":" ++ ss.
Proof. apply (formatVideoDuration_fields 3725). split; discriminate. Defined.

Example formatVideoDuration_examples :
  formatVideoDuration 3725 = "1:02:05" /\ formatVideoDuration 65 = "1:05" /\
  formatVideoDuration 0 = "0:00" /\ formatVideoDuration (-5) = "-1:-5".
Proof. repeat split. Qed.

(** ** The new-video form *)

Section FormExtras.

Import NewVideoPage.

Lemma trimStart_length (s : string) :
  (String.length (trimStart s) <= String.length s)%nat.
Proof.
  induction s as [|c s IH]; simpl; auto.
  destruct (is_white c); simpl; lia.
Qed.

Lemma trimEnd_length (s : string) :
  (String.length (trimEnd s) <= String.length s)%nat.
Proof.
  induction s as [|c s IH]; simpl; auto.
  destruct (is_white c && negb (truthy (trimEnd s))); simpl; lia.
Qed.

Lemma trim_length (s : string) :
  (String.length (trim s) <= String.length s)%nat.
Proof.
  unfold trim. pose proof (trimEnd_length (trimStart s)).
  pose proof (trimStart_length s). lia.
Qed.

(** X26: when the form validates, the title that is sent (trimmed) is not
    empty and has at most 100 characters, the description and the address
    that are sent are not empty, and the address as typed parses as a URL;
    the title as typed has between 3 and 100 characters. *)
Theorem valid_form_is_sendable (newURL : string -> option URL) (form : VideoForm) :
  validateForm newURL form = true ->
  title (videoData form) <> EmptyString /\
  (String.length (title (videoData form)) <= 100)%nat /\
  (3 <= String.length (title form) <= 100)%nat /\
  description (videoData form) <> EmptyString /\
  video_url (videoData form) <> EmptyString /\
  newURL (video_url form) <> None.
Proof.
  unfold validateForm, newErrors, videoData. simpl.
  destruct (truthy (trim (title form))) eqn:Et; simpl; [|discriminate].
  destruct (String.length (title form) <? 3)%nat eqn:E3; [discriminate|].
  destruct (100 <? String.length (title form))%nat eqn:E100; [discriminate|].
  destruct (truthy (trim (description form))) eqn:Ed; simpl; [|discriminate].
  destruct (truthy (trim (video_url form))) eqn:Eu; simpl; [|discriminate].
  destruct (newURL (video_url form)) eqn:En; [|discriminate].
  intros _. apply Nat.ltb_ge in E3. apply Nat.ltb_ge in E100.
  pose proof (trim_length (title form)).
  repeat split; auto using truthy_not_empty; try lia; discriminate.
Qed.

Lemma valid_form_is_sendable_witness :
  title (videoData (mkForm " Sets " "Naive set theory" "https://youtu.be/abc"))
  <> EmptyString.
Proof.
  apply (valid_form_is_sendable URL_parse
           (mkForm " Sets " "Naive set theory" "https://youtu.be/abc")).
  reflexivity.
Defined.

(** The length rule reads the title as typed: a padded one-letter title
    passes and is sent as one letter. *)
Example padded_title_passes :
  validateForm URL_parse (mkForm " a " "d" "https://youtu.be/abc") = true /\
  title (videoData (mkForm " a " "d" "https://youtu.be/abc")) = "a".
Proof. split; reflexivity. Qed.

End FormExtras.
